(** * need-cash: the ledger and its balance engine

    A shallow embedding of [src/flow.py], [src/ledger.py],
    [src/utils/balance.py] and [src/utils/save.py], of the start-up of
    [src/gui/app_manager.py] and of the submit handler of the add-flow
    screens, and the properties of the ledger and of the balance
    functions proved over it.

    - A Python [datetime] is the record of its seven fields; the parts of
      the [datetime] module the sources call ([date()], comparison,
      subtraction, [replace], adding a [timedelta] of days,
      [calendar.monthrange]) are written out in [Module Datetime].
    - Amounts ([Flow.size]) are Python numbers.  The development is
      parametric in the number type through the class [Amount], which
      carries the operations the sources apply to amounts and no law;
      [Z] (integer amounts) is the instance used on concrete inputs.
    - Objects are mutable in Python.  The ledger is modelled by value:
      the only in-place update of a flow the ledger performs is written
      out in [execute_flow], and every operation returns the new ledger.
    - Of the print statements, the lines [add_flow] prints when it
      rejects a flow are kept, as the message returned next to the
      ledger. *)

From Stdlib Require Import ZArith Lia List String Ascii.
From Stdlib Require DecimalString DecimalZ.
From stdpp Require Import base tactics option list numbers strings.
Import ListNotations.

Local Open Scope Z_scope.

(** ** Exceptions and results *)

(** The exceptions the modelled code can raise. *)
Inductive exn : Type :=
  | ValueError      (* list.remove(x): x not in list *)
  | OverflowError   (* date value out of range *)
  | TypeError       (* missing required positional argument *)
  | OSError         (* open() failed *)
  | UnpicklingError (* pickle.load() failed *).

(** A call either returns a value or raises. *)
Inductive result (A : Type) : Type :=
  | Ok (a : A)
  | Raise (e : exn).
Arguments Ok {A} a.
Arguments Raise {A} e.

#[global] Instance result_ret : MRet result := fun A a => Ok a.

#[global] Instance result_bind : MBind result := fun A B k r =>
  match r with
  | Ok a => k a
  | Raise e => Raise e
  end.

(** ** The [datetime] module, as far as the sources use it *)

Module Datetime.

(** A naive [datetime.datetime]. *)
Record datetime : Type := mk_datetime {
  year : Z;
  month : Z;
  day : Z;
  hour : Z;
  minute : Z;
  second : Z;
  microsecond : Z
}.

#[global] Instance datetime_eq_dec : EqDecision datetime.
Proof. solve_decision. Defined.

(** A [datetime.date]: year, month, day. *)
Definition date : Type := (Z * Z * Z)%type.

(** [dt.date()] *)
Definition to_date (dt : datetime) : date := (year dt, month dt, day dt).

Definition MINYEAR : Z := 1.
Definition MAXYEAR : Z := 9999.

Definition is_leap (y : Z) : bool :=
  (y mod 4 =? 0) && (negb (y mod 100 =? 0) || (y mod 400 =? 0)).

(** Number of days of month [m] of year [y]; the second component of
    [calendar.monthrange(y, m)]. *)
Definition days_in_month (y m : Z) : Z :=
  if m =? 2 then (if is_leap y then 29 else 28)
  else if (m =? 4) || (m =? 6) || (m =? 9) || (m =? 11) then 30
  else 31.

(** A datetime the constructor of [datetime] accepts. *)
Definition valid (dt : datetime) : Prop :=
  MINYEAR <= year dt <= MAXYEAR /\
  1 <= month dt <= 12 /\
  1 <= day dt <= days_in_month (year dt) (month dt) /\
  0 <= hour dt < 24 /\ 0 <= minute dt < 60 /\ 0 <= second dt < 60 /\
  0 <= microsecond dt < 1000000.

(** Lexicographic comparison of a list of fields, most significant
    first. *)
Fixpoint lex_compare (a b : list Z) : comparison :=
  match a, b with
  | x :: a', y :: b' =>
      match x ?= y with
      | Eq => lex_compare a' b'
      | c => c
      end
  | [], [] => Eq
  | [], _ :: _ => Lt
  | _ :: _, [] => Gt
  end.

Definition fields (dt : datetime) : list Z :=
  [year dt; month dt; day dt; hour dt; minute dt; second dt; microsecond dt].

Definition date_fields (d : date) : list Z :=
  let '(y, m, dd) := d in [y; m; dd].

(** [a <= b], [a < b] and [a >= b] on datetimes. *)
Definition leb (a b : datetime) : bool :=
  match lex_compare (fields a) (fields b) with Gt => false | _ => true end.
Definition ltb (a b : datetime) : bool :=
  match lex_compare (fields a) (fields b) with Lt => true | _ => false end.
Definition geb (a b : datetime) : bool := leb b a.

(** [a <= b] and [a < b] on dates. *)
Definition date_leb (a b : date) : bool :=
  match lex_compare (date_fields a) (date_fields b) with Gt => false | _ => true end.
Definition date_ltb (a b : date) : bool :=
  match lex_compare (date_fields a) (date_fields b) with Lt => true | _ => false end.

(** Days before January 1st of year [y]. *)
Definition days_before_year (y : Z) : Z :=
  let p := y - 1 in p * 365 + p / 4 - p / 100 + p / 400.

(** Days of year [y] before the first day of month [m]. *)
Definition days_before_month (y m : Z) : Z :=
  fold_left (fun acc k => acc + days_in_month y k)
            (map Z.of_nat (seq 1 (Z.to_nat (m - 1)))) 0.

(** [date.toordinal()]: January 1st of year 1 is day 1. *)
Definition toordinal (d : date) : Z :=
  let '(y, m, dd) := d in days_before_year y + days_before_month y m + dd.

(** Microseconds since the start of day 0. *)
Definition total_microseconds (dt : datetime) : Z :=
  ((toordinal (to_date dt) * 86400
    + (hour dt * 3600 + minute dt * 60 + second dt)) * 1000000)
  + microsecond dt.

(** [(a - b).days]: a [timedelta] is normalised so that its seconds and
    microseconds are non-negative, hence [days] is the floor. *)
Definition sub_days (a b : datetime) : Z :=
  (total_microseconds a - total_microseconds b) / 86400000000.

(** The day after, and the day before, in the proleptic Gregorian
    calendar. *)
Definition next_day (dt : datetime) : datetime :=
  if day dt <? days_in_month (year dt) (month dt) then
    mk_datetime (year dt) (month dt) (day dt + 1)
                (hour dt) (minute dt) (second dt) (microsecond dt)
  else if month dt <? 12 then
    mk_datetime (year dt) (month dt + 1) 1
                (hour dt) (minute dt) (second dt) (microsecond dt)
  else
    mk_datetime (year dt + 1) 1 1
                (hour dt) (minute dt) (second dt) (microsecond dt).

Definition prev_day (dt : datetime) : datetime :=
  if 1 <? day dt then
    mk_datetime (year dt) (month dt) (day dt - 1)
                (hour dt) (minute dt) (second dt) (microsecond dt)
  else if 1 <? month dt then
    mk_datetime (year dt) (month dt - 1) (days_in_month (year dt) (month dt - 1))
                (hour dt) (minute dt) (second dt) (microsecond dt)
  else
    mk_datetime (year dt - 1) 12 31
                (hour dt) (minute dt) (second dt) (microsecond dt).

(** [dt + timedelta(days=n)] and [dt - timedelta(days=n)] for [n >= 0];
    a result outside [MINYEAR..MAXYEAR] raises [OverflowError]. *)
Definition check_range (dt : datetime) : result datetime :=
  if (MINYEAR <=? year dt) && (year dt <=? MAXYEAR) then Ok dt
  else Raise OverflowError.

Definition add_days (dt : datetime) (n : nat) : result datetime :=
  check_range (Nat.iter n next_day dt).

Definition sub_days_from (dt : datetime) (n : nat) : result datetime :=
  check_range (Nat.iter n prev_day dt).

(** [dt.replace(day=d)] *)
Definition replace_day (dt : datetime) (d : Z) : datetime :=
  mk_datetime (year dt) (month dt) d
              (hour dt) (minute dt) (second dt) (microsecond dt).

(** [dt.replace(day=d, hour=h, minute=mi, second=s)]; the microsecond
    is kept. *)
Definition replace_day_hms (dt : datetime) (d h mi s : Z) : datetime :=
  mk_datetime (year dt) (month dt) d h mi s (microsecond dt).

(** Months counted from year 0: the order in which the monthly walks
    visit them. *)
Definition month_index (dt : datetime) : Z := year dt * 12 + month dt.

End Datetime.
Import Datetime.

(** ** Amounts *)

(** The operations the sources apply to [Flow.size] and to balances.
    [amt_zero] is the integer [0] that [sum] starts from, [amt_scale a k]
    is [a * k] for an integer [k], and [amt_round2 a] is
    [float(f'{a:.2f}')]. *)
Class Amount (A : Type) : Type := {
  amt_eq_dec :: EqDecision A;
  amt_zero : A;
  amt_add : A -> A -> A;
  amt_scale : A -> Z -> A;
  amt_round2 : A -> A
}.

(** Integer amounts: rounding to two decimals leaves an integer as it
    is. *)
#[global] Instance Z_amount : Amount Z := {
  amt_zero := 0;
  amt_add := Z.add;
  amt_scale := Z.mul;
  amt_round2 := fun a => a
}.

(** ** [src/flow.py] and [src/ledger.py] *)

Section Ledger.
Context {A : Type} `{Amount A}.

(** [class Flow].  The dataclass field [_id_counter] has [init=False]
    and a plain default, so no instance stores it: it is the class
    attribute [Flow._id_counter], the counter threaded below. *)
Record Flow : Type := mk_Flow {
  flow_id : Z;
  size : A;
  category : string;
  time_executed : datetime;
  recurrent : Z;
  comments : string
}.

#[global] Instance Flow_eq_dec : EqDecision Flow.
Proof. solve_decision. Defined.

(** [Flow(size=.., category=.., time_executed=.., recurrent=..,
    comments=..)] with [__post_init__]: the class counter is
    incremented and becomes the id of the new flow.  The second
    component is the new value of [Flow._id_counter]. *)
Definition Flow_new (id_counter : Z) (sz : A) (cat : string)
    (t : datetime) (rec : Z) (com : string) : Flow * Z :=
  let id_counter := id_counter + 1 in
  (mk_Flow id_counter sz cat t rec com, id_counter).

(** [class Ledger]; [_flows] is a dict with the two fixed keys
    ['executed'] (a tuple) and ['projected'] (a list). *)
Record Ledger : Type := mk_Ledger {
  account_name : string;
  executed : list Flow;
  projected : list Flow;
  last_id : Z
}.

(** [Ledger(account_name, last_id=0)] with [__post_init__].  The
    arguments are optional at the call site; [account_name] has no
    default, so leaving it out raises [TypeError]. *)
Definition Ledger_new (name : option string) (last : option Z) : result Ledger :=
  match name with
  | None => Raise TypeError
  | Some n => Ok (mk_Ledger n [] [] (default 0 last))
  end.

(** The line [add_flow] prints when it rejects a flow. *)
Inductive message : Type :=
  | AlreadyInProjected (id : Z)
  | AlreadyInExecuted (id : Z).

(** [any(existing_flow.flow_id == id for existing_flow in flows)]: the
    two scanning loops of [add_flow]. *)
Definition has_id (id : Z) (flows : list Flow) : bool :=
  existsb (fun existing_flow => flow_id existing_flow =? id) flows.

(** [Ledger.add_flow]: the new ledger and the line printed, if any. *)
Definition add_flow (l : Ledger) (flow : Flow) (is_proj : bool)
    : Ledger * option message :=
  if has_id (flow_id flow) (projected l) then
    (l, Some (AlreadyInProjected (flow_id flow)))
  else if has_id (flow_id flow) (executed l) then
    (l, Some (AlreadyInExecuted (flow_id flow)))
  else if is_proj then
    (mk_Ledger (account_name l) (executed l) (projected l ++ [flow])
               (flow_id flow), None)
  else
    (mk_Ledger (account_name l) (executed l ++ [flow]) (projected l)
               (flow_id flow), None).

(** [lst.remove(x)]: drops the first element equal to [x], raises
    [ValueError] when there is none. *)
Fixpoint list_remove (x : Flow) (lst : list Flow) : result (list Flow) :=
  match lst with
  | [] => Raise ValueError
  | y :: rest =>
      if decide (y = x) then Ok rest
      else rest' ← list_remove x rest; Ok (y :: rest')
  end.

(** [flow.time_executed = t] *)
Definition set_time_executed (flow : Flow) (t : datetime) : Flow :=
  mk_Flow (flow_id flow) (size flow) (category flow) t
          (recurrent flow) (comments flow).

(** [Ledger.execute_flow].  [id_counter] is [Flow._id_counter] before
    the call; the result carries the returned boolean, the counter and
    the ledger after the call.  The loop stops at the first projected
    flow with the given id, found at index [i]; assigning to its
    [time_executed] updates the list in place at that index. *)
Definition execute_flow (id_counter : Z) (l : Ledger) (id : Z)
    (real_size : A) (t : datetime) : result (bool * Z * Ledger) :=
  match list_find (fun flow => flow_id flow = id) (projected l) with
  | Some (i, flow) =>
      let '(new_flow, id_counter) :=
        Flow_new id_counter real_size (category flow) t
                 (recurrent flow) (comments flow) in
      let executed' := executed l ++ [new_flow] in
      if recurrent flow =? 0 then
        projected' ← list_remove flow (projected l);
        Ok (true, id_counter,
            mk_Ledger (account_name l) executed' projected' (last_id l))
      else
        Ok (true, id_counter,
            mk_Ledger (account_name l) executed'
                      (<[i := set_time_executed flow t]> (projected l))
                      (last_id l))
  | None => Ok (false, id_counter, l)
  end.

(** [Ledger.remove_projected_flow]: the returned boolean and the ledger
    after the call. *)
Definition remove_projected_flow (l : Ledger) (id : Z) : bool * Ledger :=
  let initial_count := List.length (projected l) in
  let projected' :=
    List.filter (fun flow => negb (flow_id flow =? id)) (projected l) in
  ((List.length projected' <? initial_count)%nat,
   mk_Ledger (account_name l) (executed l) projected' (last_id l)).

(** ** [src/utils/balance.py] *)

(** What importing the module leaves behind: the default of
    [get_balance]'s [_timestamp], the value [datetime.now()] had when
    the [def] statement ran. *)
Record BalanceModule : Type := mk_BalanceModule {
  get_balance_defaults : datetime
}.

(** [import src.utils.balance] at a moment when the clock reads
    [clock]. *)
Definition import_balance (clock : datetime) : BalanceModule :=
  mk_BalanceModule clock.

(** The builtin [sum]: a left fold of [+] from the integer 0. *)
Definition py_sum (xs : list A) : A := fold_left amt_add xs amt_zero.

(** [get_balance(ledger, _timestamp)]; [None] stands for a call that
    leaves [_timestamp] out. *)
Definition get_balance (M : BalanceModule) (ledger : Ledger)
    (_timestamp : option datetime) : A :=
  let _timestamp := default (get_balance_defaults M) _timestamp in
  py_sum (map size
    (List.filter
       (fun flow => date_leb (to_date (time_executed flow)) (to_date _timestamp))
       (executed ledger))).

(** One turn of the loop of [get_future_balance]: the new value of
    [balance]. *)
Definition future_step (timestamp : datetime) (balance : A)
    (proj_flow : Flow) : A :=
  if leb (time_executed proj_flow) timestamp then
    if recurrent proj_flow =? 0 then
      amt_add balance (size proj_flow)
    else
      let days := sub_days timestamp (time_executed proj_flow) in
      let times_executed := days / recurrent proj_flow in
      amt_add balance (amt_scale (size proj_flow) times_executed)
  else balance.

(** [get_future_balance(ledger, timestamp)] *)
Definition get_future_balance (M : BalanceModule) (ledger : Ledger)
    (timestamp : datetime) : A :=
  let balance := get_balance M ledger None in
  fold_left (future_step timestamp) (projected ledger) balance.

End Ledger.

Arguments Flow A : clear implicits.
Arguments Ledger A : clear implicits.

(** ** Python dicts and the month keys *)

(** [str(n)] for an integer. *)
Definition str_of_int (n : Z) : string :=
  DecimalString.NilZero.string_of_int (Z.to_int n).

(** [f"{n:02d}"]: zero-padded to width 2. *)
Definition format_02d (n : Z) : string :=
  let s := str_of_int n in
  if (String.length s <? 2)%nat then String "0"%char s else s.

(** [f"{current_date.year}-{current_date.month:02d}"] *)
Definition month_key (current_date : datetime) : string :=
  (str_of_int (year current_date) ++ "-" ++ format_02d (month current_date))%string.

(** A dict with string keys, in insertion order. *)
Definition dict (V : Type) : Type := list (string * V).

(** [d[k]], when [k] is a key of [d]. *)
Fixpoint dict_get {V : Type} (d : dict V) (k : string) : option V :=
  match d with
  | [] => None
  | (k', v) :: d' => if decide (k' = k) then Some v else dict_get d' k
  end.

(** [d[k] = v]: an existing key keeps its place and takes the new value,
    a new key goes last. *)
Fixpoint dict_set {V : Type} (d : dict V) (k : string) (v : V) : dict V :=
  match d with
  | [] => [(k, v)]
  | (k', v') :: d' =>
      if decide (k' = k) then (k, v) :: d' else (k', v') :: dict_set d' k v
  end.

(** ** The monthly series of [src/utils/balance.py] *)

Section Series.
Context {A : Type} `{Amount A}.

(** The last instant of the month of [current_date]:
    [current_date.replace(day=last_day, hour=23, minute=59, second=59)]
    with [last_day] from [monthrange]. *)
Definition month_end (current_date : datetime) : datetime :=
  let last_day := days_in_month (year current_date) (month current_date) in
  replace_day_hms current_date last_day 23 59 59.

(** The [while] loop of [get_future_monthly_balances].  [None] means
    the loop was cut after [fuel] turns. *)
Fixpoint future_loop (fuel : nat) (M : BalanceModule) (ledger : Ledger A)
    (end_timestamp current_date : datetime) (monthly_balances : dict A)
    : option (result (dict A)) :=
  match fuel with
  | O => None
  | S fuel =>
      if leb current_date end_timestamp then
        let end_of_month := month_end current_date in
        let end_of_month :=
          if ltb end_timestamp end_of_month then end_timestamp
          else end_of_month in
        let balance := get_future_balance M ledger end_of_month in
        let monthly_balances :=
          dict_set monthly_balances (month_key current_date)
                   (amt_round2 balance) in
        match add_days (replace_day current_date 28) 4 with
        | Raise e => Some (Raise e)
        | Ok next_month =>
            future_loop fuel M ledger end_timestamp
                        (replace_day next_month 1) monthly_balances
        end
      else Some (Ok monthly_balances)
  end.

(** [get_future_monthly_balances(ledger, end_timestamp)], called when
    [datetime.now()] reads [now]. *)
Definition get_future_monthly_balances (fuel : nat) (M : BalanceModule)
    (now : datetime) (ledger : Ledger A) (end_timestamp : datetime)
    : option (result (dict A)) :=
  future_loop fuel M ledger end_timestamp now [].

(** The [while] loop of [get_past_monthly_balances].  The local
    [start_of_month] of the source is computed and never read; the
    value of [balance] before the loop is overwritten in every turn. *)
Fixpoint past_loop (fuel : nat) (M : BalanceModule) (ledger : Ledger A)
    (end_timestamp current_date : datetime) (monthly_balances : dict A)
    : option (result (dict A)) :=
  match fuel with
  | O => None
  | S fuel =>
      if geb current_date end_timestamp then
        let end_of_month := month_end current_date in
        let balance := get_balance M ledger (Some end_of_month) in
        let monthly_balances :=
          dict_set monthly_balances (month_key current_date) balance in
        match sub_days_from (replace_day current_date 1) 1 with
        | Raise e => Some (Raise e)
        | Ok previous =>
            past_loop fuel M ledger end_timestamp previous monthly_balances
        end
      else Some (Ok monthly_balances)
  end.

(** [get_past_monthly_balances(ledger, end_timestamp)], called when
    [datetime.now()] reads [now]. *)
Definition get_past_monthly_balances (fuel : nat) (M : BalanceModule)
    (now : datetime) (ledger : Ledger A) (end_timestamp : datetime)
    : option (result (dict A)) :=
  past_loop fuel M ledger end_timestamp now [].

End Series.

(** ** [src/utils/save.py] *)

Section Save.
Context {A : Type} `{Amount A}.

(** [load_ledger(load_path)].  [unpickle path] is what
    [open(path, 'rb')] followed by [pickle.load] does on the file
    system at hand: the object read, or the exception raised.  The
    handler catches it and evaluates [Ledger()], a call with no
    argument. *)
Definition load_ledger (unpickle : string -> result (Ledger A))
    (load_path : string) : result (Ledger A) :=
  match unpickle load_path with
  | Ok ledger => Ok ledger
  | Raise e => Ledger_new None None
  end.

End Save.

(** ** The engine as its callers see it *)

Section Engine.
Context {A : Type} `{Amount A}.

(** The state of a running process: what [datetime.now()] reads, the
    imported balance module, the class attribute [Flow._id_counter]
    and the ledger the application owns. *)
Record World : Type := mk_World {
  clock : datetime;
  balance_module : BalanceModule;
  id_counter : Z;
  ledger : Ledger A
}.

(** The calls a client makes; [Tick t] is time passing until the clock
    reads [t]. *)
Inductive call : Type :=
  | Tick (t : datetime)
  | NewFlow (sz : A) (cat : string) (t : datetime) (rec : Z) (com : string)
  | AddFlow (flow : Flow A) (is_proj : bool)
  | ExecuteFlow (id : Z) (real_size : A) (t : datetime)
  | RemoveProjectedFlow (id : Z)
  | GetBalance (_timestamp : option datetime)
  | GetFutureBalance (timestamp : datetime).

(** What a call returns. *)
Inductive value : Type :=
  | VNone
  | VBool (b : bool)
  | VNum (a : A)
  | VFlow (flow : Flow A).

(** One call: the value returned and the state it leaves. *)
Definition run_call (w : World) (c : call) : result (value * World) :=
  match c with
  | Tick t =>
      Ok (VNone, mk_World t (balance_module w) (id_counter w) (ledger w))
  | NewFlow sz cat t rec com =>
      let '(flow, n) := Flow_new (id_counter w) sz cat t rec com in
      Ok (VFlow flow, mk_World (clock w) (balance_module w) n (ledger w))
  | AddFlow flow is_proj =>
      let '(l, _) := add_flow (ledger w) flow is_proj in
      Ok (VNone, mk_World (clock w) (balance_module w) (id_counter w) l)
  | ExecuteFlow id real_size t =>
      r ← execute_flow (id_counter w) (ledger w) id real_size t;
      let '(b, n, l) := r in
      Ok (VBool b, mk_World (clock w) (balance_module w) n l)
  | RemoveProjectedFlow id =>
      let '(b, l) := remove_projected_flow (ledger w) id in
      Ok (VBool b, mk_World (clock w) (balance_module w) (id_counter w) l)
  | GetBalance _timestamp =>
      Ok (VNum (get_balance (balance_module w) (ledger w) _timestamp), w)
  | GetFutureBalance timestamp =>
      Ok (VNum (get_future_balance (balance_module w) (ledger w) timestamp), w)
  end.

(** A client can only pass to [add_flow] a flow that the [Flow]
    constructor has made, so one whose id is at most the counter. *)
Definition admissible (w : World) (c : call) : Prop :=
  match c with
  | AddFlow flow _ => flow_id flow <= id_counter w
  | _ => True
  end.

(** The states a process can reach from [w0]. *)
Inductive reachable (w0 : World) : World -> Prop :=
  | reach_start : reachable w0 w0
  | reach_call (w w' : World) (c : call) (v : value) :
      reachable w0 w -> admissible w c ->
      run_call w c = Ok (v, w') -> reachable w0 w'.

(** A process that imports the balance module when the clock reads
    [t0] and owns the ledger [l]; [n] is the value of
    [Flow._id_counter] at that moment. *)
Definition boot (t0 : datetime) (n : Z) (l : Ledger A) : World :=
  mk_World t0 (import_balance t0) n l.

(** The same with a new, empty ledger: [Ledger(account_name=name)]. *)
Definition initial (t0 : datetime) (n : Z) (name : string) : World :=
  boot t0 n (mk_Ledger name [] [] 0).

(** A sequence of calls, stopping at the first that raises: the values
    returned, in order, and the final state. *)
Fixpoint run_calls (w : World) (cs : list call) : result (list value * World) :=
  match cs with
  | [] => Ok ([], w)
  | c :: cs =>
      r ← run_call w c;
      let '(v, w) := r in
      r' ← run_calls w cs;
      let '(vs, w) := r' in
      Ok (v :: vs, w)
  end.

(** Every call of the sequence is admissible in the state it is made
    in, and none raises. *)
Fixpoint admissible_calls (w : World) (cs : list call) : Prop :=
  match cs with
  | [] => True
  | c :: cs =>
      admissible w c /\
      match run_call w c with
      | Ok (_, w') => admissible_calls w' cs
      | Raise _ => False
      end
  end.

(** The ids of all flows of a ledger, executed first. *)
Definition ids (l : Ledger A) : list Z :=
  map flow_id (executed l ++ projected l).

(** The invariant carried along a run: ids are unique, and every id in
    the ledger has been handed out by the counter. *)
Definition ids_ok (n : Z) (xs : list Z) : Prop :=
  NoDup xs /\ Forall (fun i => i <= n) xs.

Definition world_ok (w : World) : Prop :=
  ids_ok (id_counter w) (ids (ledger w)).

(** How many flows of the ledger carry the id. *)
Definition count_id (id : Z) (l : Ledger A) : nat :=
  List.length (List.filter (fun i => i =? id) (ids l)).

End Engine.

Arguments World A : clear implicits.
Arguments call A : clear implicits.
Arguments value A : clear implicits.

(** ** What the spec says a realized balance is *)

Section Spec.
Context {A : Type} `{Amount A}.

(** The spec's realized balance, following its words: go through the
    executed flows in order and add the amount of each flow whose
    execution date is at most the date [d]; the others are skipped. *)
Fixpoint sum_executed_upto (d : date) (flows : list (Flow A)) (total : A) : A :=
  match flows with
  | [] => total
  | flow :: rest =>
      sum_executed_upto d rest
        (if date_leb (to_date (time_executed flow)) d
         then amt_add total (size flow) else total)
  end.

End Spec.

(** ** The rest of the engine and its callers *)

(** A date and time of day the calendar has, in any year. *)
Definition in_calendar (dt : datetime) : Prop :=
  1 <= month dt <= 12 /\
  1 <= day dt <= days_in_month (year dt) (month dt) /\
  0 <= hour dt < 24 /\ 0 <= minute dt < 60 /\ 0 <= second dt < 60 /\
  0 <= microsecond dt < 1000000.

(** [dt + timedelta(days)] for an integer [days] of either sign.  The
    [timedelta] constructor raises [OverflowError] beyond 999999999 days
    in magnitude, the addition when the result leaves
    [MINYEAR..MAXYEAR]. *)
Definition add_timedelta (dt : datetime) (days : Z) : result datetime :=
  if Z.abs days <=? 999999999 then
    if 0 <=? days then add_days dt (Z.to_nat days)
    else sub_days_from dt (Z.to_nat (- days))
  else Raise OverflowError.

(** The comparisons of an amount with 0 made by [get_balance_state]:
    [amt_pos a] is [a > 0] and [amt_neg a] is [a < 0]. *)
Class AmountSign (A : Type) : Type := {
  amt_pos : A -> bool;
  amt_neg : A -> bool
}.

#[global] Instance Z_amount_sign : AmountSign Z := {
  amt_pos := fun a => 0 <? a;
  amt_neg := fun a => a <? 0
}.

Section Callers.
Context {A : Type} `{Amount A}.

(** [flow.copy()]: a new [Flow] with the same data, so with the next id
    of the counter. *)
Definition Flow_copy (id_counter : Z) (flow : Flow A) : Flow A * Z :=
  Flow_new id_counter (size flow) (category flow) (time_executed flow)
           (recurrent flow) (comments flow).

(** [flow.clear()]: every field but the id is reset; the size becomes
    the integer 0. *)
Definition Flow_clear (flow : Flow A) : Flow A :=
  mk_Flow (flow_id flow) amt_zero "" (mk_datetime 2024 1 1 0 0 0 0) 0 "".

(** The list comprehension of [Ledger.flows_to_be_executed]: the flows
    whose [time_executed + timedelta(recurrent)] falls on [today], in
    order; the first addition that overflows raises. *)
Fixpoint due_on (today : date) (flows : list (Flow A)) : result (list (Flow A)) :=
  match flows with
  | [] => Ok []
  | pending_flow :: rest =>
      next ← add_timedelta (time_executed pending_flow) (recurrent pending_flow);
      rest' ← due_on today rest;
      Ok (if decide (to_date next = today) then pending_flow :: rest' else rest')
  end.

(** [Ledger.flows_to_be_executed()], called when [datetime.now()] reads
    [now]. *)
Definition flows_to_be_executed (now : datetime) (l : Ledger A)
    : result (list (Flow A)) :=
  let today := to_date now in
  due_on today (projected l).

(** [get_balance_state(ledger)] *)
Definition get_balance_state `{AmountSign A} (ledger : Ledger A) : Z :=
  let sum_of_projected := py_sum (map size (projected ledger)) in
  if amt_pos sum_of_projected then 1
  else if amt_neg sum_of_projected then -1
  else 0.

(** [AppManager]: the ledger and the temporary flow of the add-flow
    screens. *)
Record AppManager : Type := mk_AppManager {
  manager_ledger : Ledger A;
  manager_flow : Flow A
}.

(** [AppManager.__ledger_from_path].  The file system is given by what
    its calls do here: whether the path is a file, what creating the
    parent directories does, what [save_ledger] does with the new
    ledger (its boolean is not read), and what unpickling gives. *)
Definition ledger_from_path (is_file : bool) (mkdir : result unit)
    (save : result bool) (unpickle : string -> result (Ledger A))
    (path account_name : string) : result (Ledger A) :=
  if negb is_file then
    _ ← mkdir;
    ledger ← Ledger_new (Some account_name) None;
    _ ← save;
    Ok ledger
  else load_ledger unpickle path.

(** [AppManager.__init__], given what [__ledger_from_path] returns: the
    temporary flow is made, then [Flow._id_counter] is set to the
    [last_id] of the ledger.  The second component is the counter after
    the call. *)
Definition AppManager_new (id_counter : Z) (from_path : result (Ledger A))
    : result (AppManager * Z) :=
  ledger ← from_path;
  let '(_flow, _) :=
    Flow_new id_counter amt_zero "" (mk_datetime 2024 1 9 0 0 0 0) 0 "" in
  Ok (mk_AppManager ledger _flow, last_id ledger).

(** [AppManager.get_n_flows] and [AppManager.get_n_projections] *)
Definition get_n_flows (l : Ledger A) : nat :=
  (List.length (executed l) + List.length (projected l))%nat.

Definition get_n_projections (l : Ledger A) : nat := List.length (projected l).

(** [AddFlowGetCommentScreen.submit_button_pressed], up to and including
    [self.parent.manager._flow.clear()]: the counter, the ledger and the
    temporary flow after these statements.  [now1] and [now2] are the
    two readings of [datetime.now()].  The statements that follow
    ([save_ledger], reloading and switching the windows) assign to none
    of the three. *)
Definition submit_button_pressed (id_counter : Z) (m : AppManager)
    (comments : string) (now1 now2 : datetime) : Z * AppManager :=
  let '(flow, id_counter) :=
    Flow_new id_counter (size (manager_flow m)) (category (manager_flow m))
             (time_executed (manager_flow m)) (recurrent (manager_flow m))
             comments in
  let ledger :=
    if date_leb (to_date (time_executed flow)) (to_date now1)
    then fst (add_flow (manager_ledger m) flow false)
    else manager_ledger m in
  let '(id_counter, ledger) :=
    if date_ltb (to_date now2) (to_date (time_executed flow))
       || negb (recurrent flow =? 0)
    then
      let '(copy, id_counter) := Flow_copy id_counter flow in
      (id_counter, fst (add_flow ledger copy true))
    else (id_counter, ledger) in
  (id_counter, mk_AppManager ledger (Flow_clear (manager_flow m))).

(** The dates the forward walk of [get_future_monthly_balances] visits
    after the first: the first day of the next month, at the same time
    of day. *)
Definition next_first (c : datetime) : datetime :=
  if month c <? 12 then
    mk_datetime (year c) (month c + 1) 1
                (hour c) (minute c) (second c) (microsecond c)
  else
    mk_datetime (year c + 1) 1 1
                (hour c) (minute c) (second c) (microsecond c).

(** The dates the backward walk of [get_past_monthly_balances] visits
    after the first: the last day of the previous month, at the same
    time of day. *)
Definition prev_last (c : datetime) : datetime := prev_day (replace_day c 1).

(** [k] dates of a walk from [c]. *)
Fixpoint walk (step : datetime -> datetime) (k : nat) (c : datetime)
    : list datetime :=
  match k with
  | O => []
  | S k => c :: walk step k (step c)
  end.

(** The entry the forward walk writes for [current_date]. *)
Definition future_entry (M : BalanceModule) (l : Ledger A)
    (end_timestamp current_date : datetime) : string * A :=
  (month_key current_date,
   amt_round2
     (get_future_balance M l
        (if ltb end_timestamp (month_end current_date)
         then end_timestamp else month_end current_date))).

(** The entry the backward walk writes for [current_date]. *)
Definition past_entry (M : BalanceModule) (l : Ledger A)
    (current_date : datetime) : string * A :=
  (month_key current_date, get_balance M l (Some (month_end current_date))).

End Callers.

Arguments AppManager A : clear implicits.

(** ** Concrete inputs *)

Module Sample.

(** A moment of 2024, to the minute. *)
Definition at_2024 (mo d h mi : Z) : datetime := mk_datetime 2024 mo d h mi 0 0.

(** Two executed flows, on March 5th and March 25th, a projected
    one-off on March 20th and a projected flow that recurs every 30
    days from January 1st. *)
Definition salary : Flow Z := mk_Flow 1 100 "salary" (at_2024 3 5 10 0) 0 "".
Definition refund : Flow Z := mk_Flow 2 50 "refund" (at_2024 3 25 10 0) 0 "".
Definition gift : Flow Z := mk_Flow 3 7 "gift" (at_2024 3 20 0 0) 0 "".
Definition rent : Flow Z := mk_Flow 4 10 "rent" (at_2024 1 1 0 0) 30 "".

Definition march_ledger : Ledger Z :=
  mk_Ledger "account" [salary; refund] [gift; rent] 4.

(** The balance module was imported on March 10th at 9:00; it is
    12:00 on the same day. *)
Definition imported : datetime := at_2024 3 10 9 0.
Definition now : datetime := at_2024 3 10 12 0.
Definition M : BalanceModule := import_balance imported.

(** A process started on March 10th that is still running on March
    12th: a flow executed on the 11th is entered that day, and the
    balances are asked for on the 12th. *)
Definition wages : Flow Z := mk_Flow 0 100 "wages" (at_2024 3 11 9 0) 0 "".

Definition two_days : list (call Z) :=
  [ Tick (at_2024 3 11 9 0);
    NewFlow 100 "wages" (at_2024 3 11 9 0) 0 "";
    AddFlow wages false;
    Tick (at_2024 3 12 9 0);
    GetBalance (Some (at_2024 3 12 9 0));
    GetFutureBalance (at_2024 4 1 0 0) ].

Definition after_two_days : World Z :=
  mk_World (at_2024 3 12 9 0) M 0 (mk_Ledger "account" [wages] [] 0).

(** A failing file system: every [open] raises. *)
Definition no_file (path : string) : result (Ledger Z) := Raise OSError.

End Sample.

Module Session.
Import Sample.

(** [Sample.march_ledger] after the rent was executed as -48 on March
    10th at 12:00. *)
Definition rent_paid : Ledger Z :=
  mk_Ledger "account" [salary; refund; mk_Flow 5 (-48) "rent" now 30 ""]
            [gift; mk_Flow 4 10 "rent" now 30 ""] 4.

(** The temporary flow of the add-flow screens once the user has filled
    it in: 25 for books on March 9th, not recurring. *)
Definition draft : Flow Z := mk_Flow 0 25 "books" (at_2024 3 9 0 0) 0 "".

(** A ledger with three projected flows. *)
Definition books : Flow Z := mk_Flow 5 (-20) "books" (at_2024 4 2 0 0) 0 "".

Definition three_pending : Ledger Z :=
  mk_Ledger "account" [salary] [gift; rent; books] 5.

(** January 31st at noon, the day the rent of [Sample.march_ledger] is
    due for the first time, and the ledger after it was executed as -48
    at that moment. *)
Definition jan_31 : datetime := at_2024 1 31 12 0.

Definition rent_paid_in_january : Ledger Z :=
  mk_Ledger "account" [salary; refund; mk_Flow 5 (-48) "rent" jan_31 30 ""]
            [gift; mk_Flow 4 10 "rent" jan_31 30 ""] 4.

End Session.

(** Two sessions of the application on a new account. *)
Module Restart.
Import Sample.

(** The ledger file of the account. *)
Definition path : string := "./ledgers/ledger_account.pkl".

(** The temporary flow as [AppManager.__init__] makes it, and once the
    add-flow screens have filled it in: a rent of 10 every 30 days, paid
    for the first time on February 9th. *)
Definition temporary : Flow Z := mk_Flow 0 0 "" (mk_datetime 2024 1 9 0 0 0 0) 0 "".
Definition filled : Flow Z := mk_Flow 0 10 "rent" (at_2024 2 9 0 0) 30 "".

(** The ledger after the flow was submitted on March 10th: flow 1 is
    the payment of February 9th, flow 2 its projected copy, due again
    on March 10th. *)
Definition submitted : Ledger Z :=
  mk_Ledger "account" [mk_Flow 1 10 "rent" (at_2024 2 9 0 0) 30 ""]
            [mk_Flow 2 10 "rent" (at_2024 2 9 0 0) 30 ""] 2.

(** The ledger saved by the first session, after flow 2 was executed on
    March 10th. *)
Definition first_session : Ledger Z :=
  mk_Ledger "account"
    [mk_Flow 1 10 "rent" (at_2024 2 9 0 0) 30 ""; mk_Flow 3 10 "rent" now 30 ""]
    [mk_Flow 2 10 "rent" now 30 ""] 2.

(** The second session runs on April 9th, when flow 2 is due again. *)
Definition april_9 : datetime := at_2024 4 9 12 0.

Definition second_session : Ledger Z :=
  mk_Ledger "account"
    [mk_Flow 1 10 "rent" (at_2024 2 9 0 0) 30 ""; mk_Flow 3 10 "rent" now 30 "";
     mk_Flow 3 10 "rent" april_9 30 ""]
    [mk_Flow 2 10 "rent" april_9 30 ""] 2.

(** The file system of the second session: the ledger file holds what
    the first session saved. *)
Definition saved (load_path : string) : result (Ledger Z) := Ok first_session.

End Restart.

(** * Properties *)

(** ** Comparison of dates and datetimes *)

Lemma lex_compare_antisym (a b : list Z) :
  lex_compare b a = CompOpp (lex_compare a b).
Proof.
  revert b; induction a as [|x a IH]; intros [|y b]; simpl; try reflexivity.
  rewrite (Z.compare_antisym x y).
  destruct (x ?= y); simpl; auto.
Qed.

Lemma date_ltb_not_leb (a b : date) :
  date_ltb a b = true -> date_leb b a = false.
Proof.
  unfold date_ltb, date_leb. rewrite (lex_compare_antisym (date_fields a)).
  destruct (lex_compare (date_fields a) (date_fields b)); simpl; congruence.
Qed.

(** ** The ledger operations *)

Section LedgerFacts.
Context {A : Type} `{Amount A}.
Implicit Types (l : Ledger A) (flow : Flow A) (flows : list (Flow A)).

Lemma py_sum_snoc (xs : list A) (x : A) :
  py_sum (xs ++ [x]) = amt_add (py_sum xs) x.
Proof. unfold py_sum. now rewrite fold_left_app. Qed.

Lemma sum_executed_upto_fold (d : date) flows (total : A) :
  sum_executed_upto d flows total =
  fold_left amt_add
    (map size (List.filter
                 (fun flow => date_leb (to_date (time_executed flow)) d) flows))
    total.
Proof.
  revert total; induction flows as [|flow rest IH]; intros total; simpl.
  - reflexivity.
  - rewrite IH. now destruct (date_leb _ d).
Qed.

Lemma has_id_false id flows :
  has_id id flows = false <-> Forall (fun flow => flow_id flow <> id) flows.
Proof.
  unfold has_id. induction flows as [|flow rest IH]; simpl.
  - split; [constructor | reflexivity].
  - rewrite orb_false_iff, IH, Forall_cons, Z.eqb_neq. tauto.
Qed.

Lemma has_id_true id flows :
  has_id id flows = true <-> exists flow, In flow flows /\ flow_id flow = id.
Proof.
  unfold has_id. rewrite existsb_exists.
  split; intros (flow & Hin & Heq); exists flow; split; auto; lia.
Qed.

Lemma has_id_app id flows flows' :
  has_id id (flows ++ flows') = has_id id flows || has_id id flows'.
Proof. apply existsb_app. Qed.

Lemma has_id_ids id l :
  has_id id (projected l) = false -> has_id id (executed l) = false ->
  ~ In id (ids l).
Proof.
  intros Hp He Hin. unfold ids in Hin.
  apply in_map_iff in Hin as (flow & Hid & Hin).
  apply in_app_or in Hin as [Hin|Hin].
  - apply has_id_false in He. rewrite Forall_forall in He.
    apply (He flow); [now apply list_elem_of_In | exact Hid].
  - apply has_id_false in Hp. rewrite Forall_forall in Hp.
    apply (Hp flow); [now apply list_elem_of_In | exact Hid].
Qed.

(** [add_flow] rejects a flow whose id is in the ledger: it prints the
    message and leaves the ledger as it is. *)
Lemma add_flow_rejects l flow is_proj :
  has_id (flow_id flow) (projected l) || has_id (flow_id flow) (executed l) = true ->
  exists msg, add_flow l flow is_proj = (l, Some msg).
Proof.
  intros Hdup. unfold add_flow.
  destruct (has_id (flow_id flow) (projected l)); [eauto|].
  simpl in Hdup. rewrite Hdup. eauto.
Qed.

(** After [add_flow] the id of the flow is in the ledger. *)
Lemma add_flow_has_id l flow is_proj :
  let l' := fst (add_flow l flow is_proj) in
  has_id (flow_id flow) (projected l') || has_id (flow_id flow) (executed l') = true.
Proof.
  unfold add_flow.
  destruct (has_id (flow_id flow) (projected l)) eqn:Hp; [simpl; now rewrite Hp|].
  destruct (has_id (flow_id flow) (executed l)) eqn:He;
    [simpl; rewrite Hp, He; reflexivity|].
  destruct is_proj; simpl; rewrite has_id_app; simpl; rewrite Z.eqb_refl;
    rewrite ?orb_true_r; reflexivity.
Qed.

End LedgerFacts.

(** ** Realized balance *)

Section BalanceFacts.
Context {A : Type} `{Amount A}.
Implicit Types (l : Ledger A) (flow : Flow A) (M : BalanceModule).

Lemma get_balance_snoc M l flow T name last proj :
  get_balance M (mk_Ledger name (executed l ++ [flow]) proj last) (Some T) =
  if date_leb (to_date (time_executed flow)) (to_date T)
  then amt_add (get_balance M l (Some T)) (size flow)
  else get_balance M l (Some T).
Proof.
  unfold get_balance; simpl. rewrite List.filter_app; simpl.
  destruct (date_leb _ _); simpl.
  - rewrite map_app; simpl. now rewrite py_sum_snoc.
  - now rewrite app_nil_r.
Qed.

Lemma get_balance_projected_irrelevant M l T name last proj :
  get_balance M (mk_Ledger name (executed l) proj last) T = get_balance M l T.
Proof. reflexivity. Qed.

(** C1: for every ledger and timestamp [T], [get_balance] returns the
    sum of [size] over exactly the executed flows whose
    [time_executed.date()] is at most [T.date()] (the running total
    [sum_executed_upto] of the spec, which skips every later flow);
    adding a flow dated strictly after [T.date()] leaves the balance
    at [T] unchanged, and adding to the executed flows a new flow
    dated at most [T.date()] adds its size. *)
Theorem get_balance_sum_upto_date M l (T : datetime) :
  get_balance M l (Some T) =
    sum_executed_upto (to_date T) (executed l) amt_zero
  /\ (forall flow is_proj,
        date_ltb (to_date T) (to_date (time_executed flow)) = true ->
        get_balance M (fst (add_flow l flow is_proj)) (Some T) =
        get_balance M l (Some T))
  /\ (forall flow,
        has_id (flow_id flow) (projected l) = false ->
        has_id (flow_id flow) (executed l) = false ->
        date_leb (to_date (time_executed flow)) (to_date T) = true ->
        get_balance M (fst (add_flow l flow false)) (Some T) =
        amt_add (get_balance M l (Some T)) (size flow)).
Proof.
  split; [|split].
  - unfold get_balance, py_sum; simpl. now rewrite sum_executed_upto_fold.
  - intros flow is_proj Hlater. apply date_ltb_not_leb in Hlater.
    unfold add_flow.
    destruct (has_id _ (projected l)); [reflexivity|].
    destruct (has_id _ (executed l)); [reflexivity|].
    destruct is_proj; simpl.
    + apply get_balance_projected_irrelevant.
    + rewrite get_balance_snoc. now rewrite Hlater.
  - intros flow Hp He Hle. unfold add_flow. rewrite Hp, He; simpl.
    rewrite get_balance_snoc. now rewrite Hle.
Qed.

End BalanceFacts.

(** ** [add_flow], [execute_flow], [remove_projected_flow] *)

Section OperationFacts.
Context {A : Type} `{Amount A}.
Implicit Types (l : Ledger A) (flow : Flow A) (flows : list (Flow A)).

Lemma count_id_absent id l : ~ In id (ids l) -> count_id id l = 0%nat.
Proof.
  unfold count_id. induction (ids l) as [|i rest IH]; simpl; [reflexivity|].
  intros Hnot. destruct (Z.eqb_spec i id) as [->|Hne].
  - exfalso. apply Hnot. now left.
  - apply IH. intros Hin. apply Hnot. now right.
Qed.

Lemma filter_eqb_app id (xs ys : list Z) :
  List.length (List.filter (fun i => i =? id) (xs ++ ys)) =
  (List.length (List.filter (fun i => (i =? id)%Z) xs)
   + List.length (List.filter (fun i => (i =? id)%Z) ys))%nat.
Proof. now rewrite List.filter_app, length_app. Qed.

(** A flow whose id is new is added once. *)
Lemma add_flow_fresh_count l flow is_proj :
  has_id (flow_id flow) (projected l) = false ->
  has_id (flow_id flow) (executed l) = false ->
  count_id (flow_id flow) (fst (add_flow l flow is_proj)) = 1%nat.
Proof.
  intros Hp He. pose proof (count_id_absent _ _ (has_id_ids _ _ Hp He)) as H0.
  unfold add_flow. rewrite Hp, He.
  unfold count_id, ids in *.
  destruct is_proj; simpl;
    rewrite ?map_app, ?filter_eqb_app in *; simpl; rewrite Z.eqb_refl; simpl; lia.
Qed.

(** C5: [add_flow] under an id collision.  If a flow with the id is in
    either partition, the call returns normally, prints the duplicate
    message and leaves the whole ledger, [last_id] included, as it
    was; so a second [add_flow] with the id of a first one changes
    nothing, and after the two calls a ledger that did not hold the id
    holds exactly one flow with it. *)
Theorem add_flow_idempotent_on_collision l :
  (forall flow is_proj,
      has_id (flow_id flow) (projected l) || has_id (flow_id flow) (executed l) = true ->
      exists msg, add_flow l flow is_proj = (l, Some msg))
  /\ (forall flow flow' is_proj is_proj',
        flow_id flow' = flow_id flow ->
        let l1 := fst (add_flow l flow is_proj) in
        exists msg, add_flow l1 flow' is_proj' = (l1, Some msg))
  /\ (forall flow flow' is_proj is_proj',
        flow_id flow' = flow_id flow ->
        has_id (flow_id flow) (projected l) = false ->
        has_id (flow_id flow) (executed l) = false ->
        count_id (flow_id flow)
          (fst (add_flow (fst (add_flow l flow is_proj)) flow' is_proj')) = 1%nat).
Proof.
  split; [|split].
  - apply add_flow_rejects.
  - intros flow flow' is_proj is_proj' Hid l1. apply add_flow_rejects.
    rewrite Hid. apply add_flow_has_id.
  - intros flow flow' is_proj is_proj' Hid Hp He.
    destruct (add_flow_rejects (fst (add_flow l flow is_proj)) flow' is_proj')
      as [msg Hmsg].
    { rewrite Hid. apply add_flow_has_id. }
    rewrite Hmsg; simpl. now apply add_flow_fresh_count.
Qed.

End OperationFacts.

Section ExecuteFacts.
Context {A : Type} `{Amount A}.
Implicit Types (l : Ledger A) (flow : Flow A) (flows pre post : list (Flow A)).

(** The loop of [execute_flow] finds nothing when no projected flow has
    the id. *)
Lemma list_find_absent id flows :
  has_id id flows = false ->
  list_find (fun flow => flow_id flow = id) flows = None.
Proof.
  induction flows as [|flow rest IH]; simpl; [reflexivity|].
  intros Hno. apply orb_false_iff in Hno as [Hhd Htl].
  apply Z.eqb_neq in Hhd.
  destruct (decide (flow_id flow = id)); [contradiction|].
  now rewrite (IH Htl).
Qed.

(** Otherwise it stops at the first one. *)
Lemma list_find_first id flows :
  has_id id flows = true ->
  exists pre flow post,
    flows = pre ++ flow :: post /\ flow_id flow = id /\
    has_id id pre = false /\
    list_find (fun flow => flow_id flow = id) flows = Some (List.length pre, flow).
Proof.
  induction flows as [|x rest IH]; simpl; [discriminate|].
  intros Hhas. destruct (decide (flow_id x = id)) as [Heq|Hne].
  - exists [], x, rest. repeat split; auto.
  - apply Z.eqb_neq in Hne. rewrite Hne in Hhas; simpl in Hhas.
    destruct (IH Hhas) as (pre & flow & post & -> & Hid & Hpre & Hfind).
    exists (x :: pre), flow, post. repeat split; auto.
    + simpl. now rewrite Hne, Hpre.
    + now rewrite Hfind.
Qed.

(** [list.remove(flow)] drops the flow the loop stopped at. *)
Lemma list_remove_first flow pre post :
  has_id (flow_id flow) pre = false ->
  list_remove flow (pre ++ flow :: post) = Ok (pre ++ post).
Proof.
  induction pre as [|x pre IH]; simpl; intros Hpre.
  - now rewrite decide_True.
  - apply orb_false_iff in Hpre as [Hx Hpre]. apply Z.eqb_neq in Hx.
    rewrite decide_False by congruence.
    now rewrite (IH Hpre).
Qed.

Lemma insert_at_first flow flow' pre post :
  <[List.length pre := flow']> (pre ++ flow :: post) = pre ++ flow' :: post.
Proof. induction pre as [|x pre IH]; simpl; [reflexivity | now rewrite IH]. Qed.

Lemma filter_other_ids id flows :
  has_id id flows = false ->
  List.filter (fun flow => negb (flow_id flow =? id)) flows = flows.
Proof.
  induction flows as [|flow rest IH]; simpl; [reflexivity|].
  intros Hno. apply orb_false_iff in Hno as [Hhd Htl].
  rewrite Hhd; simpl. now rewrite (IH Htl).
Qed.

(** What [execute_flow] does when the loop finds a flow. *)
Lemma execute_flow_first_match (n : Z) l (id : Z) (real_size : A) (t : datetime) :
  has_id id (projected l) = true ->
  exists pre flow post l',
    projected l = pre ++ flow :: post /\ flow_id flow = id /\
    has_id id pre = false /\
    execute_flow n l id real_size t = Ok (true, n + 1, l') /\
    executed l' =
      executed l ++
      [mk_Flow (n + 1) real_size (category flow) t (recurrent flow) (comments flow)] /\
    account_name l' = account_name l /\ last_id l' = last_id l /\
    (recurrent flow = 0 ->
       projected l' = pre ++ post /\
       (List.length (projected l') + 1)%nat = List.length (projected l)) /\
    (recurrent flow <> 0 ->
       projected l' = pre ++ set_time_executed flow t :: post /\
       List.length (projected l') = List.length (projected l)).
Proof.
  intros Hhas.
  destruct (list_find_first id (projected l) Hhas)
    as (pre & flow & post & Hsplit & Hid & Hpre & Hfind).
  unfold execute_flow. rewrite Hfind. unfold Flow_new.
  destruct (Z.eqb_spec (recurrent flow) 0) as [Hrec|Hrec].
  - rewrite Hsplit, list_remove_first by now rewrite Hid.
    eexists pre, flow, post, _. simpl.
    do 7 (split; [first [reflexivity | assumption]|]).
    split; intros Hcase; [|contradiction].
    split; [reflexivity | simpl; rewrite !length_app; simpl; lia].
  - rewrite Hsplit, insert_at_first.
    eexists pre, flow, post, _. simpl.
    do 7 (split; [first [reflexivity | assumption]|]).
    split; intros Hcase; [contradiction|].
    split; [reflexivity | simpl; rewrite !length_app; simpl; lia].
Qed.

(** What the two operations do when no projected flow has the id. *)
Lemma execute_flow_absent (n : Z) l (id : Z) (real_size : A) (t : datetime) :
  has_id id (projected l) = false ->
  execute_flow n l id real_size t = Ok (false, n, l).
Proof. intros Hno. unfold execute_flow. now rewrite list_find_absent. Qed.

Lemma remove_projected_flow_absent l (id : Z) :
  has_id id (projected l) = false ->
  remove_projected_flow l id = (false, l).
Proof.
  intros Hno. unfold remove_projected_flow.
  rewrite filter_other_ids by assumption.
  rewrite Nat.ltb_irrefl. now destruct l.
Qed.

(** C4: when the ledger holds a projected flow with the id,
    [execute_flow] returns [True]; it appends to the executed flows a
    new flow (with the next id of the counter) whose size is
    [real_size], whose [time_executed] is [t] and whose category,
    recurrence and comments are those of the matched projected flow,
    the first one with the id.  If the matched flow has [recurrent = 0]
    it is removed from the projected flows, whose length drops by one;
    if [recurrent > 0] the flow at its place afterwards has
    [time_executed = t] and the id, size, category, recurrence and
    comments of the matched flow, and the length is unchanged.
    [account_name] and [last_id] are not touched. *)
Theorem execute_flow_found (n : Z) l (id : Z) (real_size : A) (t : datetime) :
  has_id id (projected l) = true ->
  exists pre flow post l',
    projected l = pre ++ flow :: post /\ flow_id flow = id /\
    has_id id pre = false /\
    execute_flow n l id real_size t = Ok (true, n + 1, l') /\
    executed l' =
      executed l ++
      [mk_Flow (n + 1) real_size (category flow) t (recurrent flow) (comments flow)] /\
    account_name l' = account_name l /\ last_id l' = last_id l /\
    (recurrent flow = 0 ->
       projected l' = pre ++ post /\
       (List.length (projected l') + 1)%nat = List.length (projected l)) /\
    (recurrent flow > 0 ->
       projected l' =
         pre ++ mk_Flow id (size flow) (category flow) t (recurrent flow)
                        (comments flow) :: post /\
       List.length (projected l') = List.length (projected l)).
Proof.
  intros Hhas.
  destruct (execute_flow_first_match n l id real_size t Hhas)
    as (pre & flow & post & l' & Hsplit & Hid & Hpre & Hrun & Hex & Hname &
        Hlast & Hzero & Hrec).
  exists pre, flow, post, l'.
  do 7 (split; [assumption|]).
  split; [exact Hzero|]. intros Hpos.
  destruct (Hrec ltac:(lia)) as [Hkept Hlen]. split; [|exact Hlen].
  rewrite Hkept. unfold set_time_executed. now rewrite Hid.
Qed.

(** C6: when no projected flow has the id, [execute_flow] and
    [remove_projected_flow] both return [False], and the ledger (both
    partitions, the account name and [last_id]) and the id counter are
    what they were before the call. *)
Theorem not_found_changes_nothing (n : Z) l (id : Z) (real_size : A)
    (t : datetime) :
  has_id id (projected l) = false ->
  execute_flow n l id real_size t = Ok (false, n, l)
  /\ remove_projected_flow l id = (false, l).
Proof.
  intros Hno. split.
  - now apply execute_flow_absent.
  - now apply remove_projected_flow_absent.
Qed.

End ExecuteFacts.

(** ** The uniqueness invariant *)

Section Uniqueness.
Context {A : Type} `{Amount A}.
Implicit Types (l : Ledger A) (flow : Flow A) (w : World A).

Lemma ids_ok_perm n xs xs' : Permutation xs xs' -> ids_ok n xs -> ids_ok n xs'.
Proof.
  intros Hperm [Hnd Hle]. split; now rewrite <- Hperm.
Qed.

Lemma ids_ok_cons n i xs :
  ids_ok n xs -> ~ In i xs -> i <= n -> ids_ok n (i :: xs).
Proof.
  intros [Hnd Hle] Hnew Hi. split.
  - constructor; [now rewrite list_elem_of_In | exact Hnd].
  - now constructor.
Qed.

(** The next id of the counter xs not in the ledger yet. *)
Lemma ids_ok_next n xs : ids_ok n xs -> ids_ok (n + 1) ((n + 1) :: xs).
Proof.
  intros [Hnd Hle]. split.
  - constructor; [|exact Hnd].
    rewrite list_elem_of_In. intros Hin.
    rewrite Forall_forall in Hle.
    apply list_elem_of_In, Hle in Hin. lia.
  - constructor; [lia|]. eapply Forall_impl; [exact Hle|]. simpl; intros; lia.
Qed.

Lemma ids_ok_weaken n xs : ids_ok n xs -> ids_ok (n + 1) xs.
Proof.
  intros [Hnd Hle]. split; [exact Hnd|].
  eapply Forall_impl; [exact Hle|]. simpl; intros; lia.
Qed.

Lemma ids_ok_drop n xs i xs' : ids_ok n (xs ++ i :: xs') -> ids_ok n (xs ++ xs').
Proof.
  intros Hok. apply (ids_ok_perm n _ (i :: xs ++ xs')) in Hok.
  - destruct Hok as [Hnd Hle]. split.
    + now apply NoDup_cons in Hnd.
    + now inversion Hle.
  - symmetry. apply Permutation_middle.
Qed.

Lemma ids_ok_filter n (p : Flow A -> bool) (flows : list (Flow A)) :
  forall xs, ids_ok n (xs ++ map flow_id flows) ->
             ids_ok n (xs ++ map flow_id (List.filter p flows)).
Proof.
  induction flows as [|flow rest IH]; intros xs Hok; simpl in *; [exact Hok|].
  destruct (p flow); simpl.
  - specialize (IH (xs ++ [flow_id flow])).
    rewrite <- !app_assoc in IH. now apply IH.
  - apply IH. eapply ids_ok_drop; eauto.
Qed.

Lemma add_flow_ok n l flow is_proj :
  ids_ok n (ids l) -> flow_id flow <= n ->
  ids_ok n (ids (fst (add_flow l flow is_proj))).
Proof.
  intros Hok Hid. unfold add_flow.
  destruct (has_id _ (projected l)) eqn:Hp; [exact Hok|].
  destruct (has_id _ (executed l)) eqn:He; [exact Hok|].
  pose proof (has_id_ids _ _ Hp He) as Hnew.
  pose proof (ids_ok_cons _ _ _ Hok Hnew Hid) as Hok'.
  destruct is_proj; simpl; unfold ids in *; simpl;
    eapply ids_ok_perm; try exact Hok'; rewrite !map_app; simpl.
  - rewrite app_assoc. apply Permutation_cons_append.
  - rewrite <- app_assoc. simpl. apply Permutation_middle.
Qed.

Lemma execute_flow_ok n l id real_size t :
  ids_ok n (ids l) ->
  exists b n' l',
    execute_flow n l id real_size t = Ok (b, n', l') /\ ids_ok n' (ids l').
Proof.
  intros Hok. destruct (has_id id (projected l)) eqn:Hhas.
  - destruct (execute_flow_first_match n l id real_size t Hhas)
      as (pre & flow & post & l' & Hsplit & Hid & Hpre & Hrun & Hex & _ & _ & H0 & Hpos).
    exists true, (n + 1), l'. split; [exact Hrun|].
    unfold ids in *. rewrite Hsplit in Hok. rewrite Hex.
    assert (Hmid : forall ps : list (Flow A),
               ids_ok n (map flow_id (executed l ++ ps)) ->
               ids_ok (n + 1)
                 (map flow_id
                    ((executed l ++
                      [mk_Flow (n + 1) real_size (category flow) t
                               (recurrent flow) (comments flow)]) ++ ps))).
    { intros ps Hps. apply ids_ok_next in Hps.
      eapply ids_ok_perm; [|exact Hps].
      rewrite !map_app; simpl. rewrite <- app_assoc. simpl.
      apply Permutation_middle. }
    destruct (Z.eqb_spec (recurrent flow) 0) as [Hrec|Hrec].
    + destruct (H0 Hrec) as [-> _]. apply Hmid.
      rewrite !map_app in *; simpl in Hok.
      rewrite app_assoc in *. eapply ids_ok_drop; eauto.
    + destruct (Hpos Hrec) as [-> _]. apply Hmid.
      rewrite !map_app in *. exact Hok.
  - exists false, n, l. split; [|exact Hok].
    now apply execute_flow_absent.
Qed.

End Uniqueness.

Section Invariant.
Context {A : Type} `{Amount A}.
Implicit Types (l : Ledger A) (w : World A) (c : call A).

Lemma has_id_elem_of id (flows : list (Flow A)) :
  has_id id flows = true <-> id ∈ map flow_id flows.
Proof.
  rewrite has_id_true, list_elem_of_In, in_map_iff.
  split; intros (flow & H1 & H2); exists flow; auto.
Qed.

(** Every admissible call returns, and keeps the invariant. *)
Lemma run_call_ok w c :
  world_ok w -> admissible w c ->
  exists v w', run_call w c = Ok (v, w') /\ world_ok w'.
Proof.
  unfold world_ok. intros Hok Hadm. destruct c as [t|sz cat t rec com|flow is_proj|id real_size t|id|ts|ts]; simpl in *.
  - eauto.
  - eexists _, _. split; [reflexivity|]. simpl. now apply ids_ok_weaken.
  - pose proof (add_flow_ok _ _ flow is_proj Hok Hadm) as Hok'.
    destruct (add_flow (ledger w) flow is_proj) as [l' msg]. eauto.
  - destruct (execute_flow_ok _ _ id real_size t Hok)
      as (b & n' & l' & Hrun & Hok').
    rewrite Hrun. simpl. eauto.
  - eexists _, _. split; [reflexivity|]. simpl.
    unfold ids in *; simpl. rewrite map_app in *.
    now apply ids_ok_filter.
  - eauto.
  - eauto.
Qed.

Lemma reachable_ok w0 w : world_ok w0 -> reachable w0 w -> world_ok w.
Proof.
  intros H0 Hreach. induction Hreach as [|w w' c v Hreach IH Hadm Hrun].
  - exact H0.
  - destruct (run_call_ok w c IH Hadm) as (v' & w'' & Hrun' & Hok).
    rewrite Hrun in Hrun'. now inversion Hrun'; subst.
Qed.

(** As long as [Flow._id_counter] is only moved by the [Flow]
    constructor, the ids stay unique: in every state reached from an
    empty ledger by the calls of the engine (flows made by the [Flow]
    constructor, [add_flow], [execute_flow], [remove_projected_flow],
    the balance queries, time passing), no id occurs twice among the
    executed flows, none occurs twice among the projected flows, and
    none occurs in both; and every such call returns without raising.
    [AppManager.__init__] assigns to the counter, and is not among
    these calls. *)
Lemma uniqueness_within_a_process (t0 : datetime) (n : Z) (name : string) w :
  reachable (initial t0 n name) w ->
  NoDup (map flow_id (executed (ledger w)))
  /\ NoDup (map flow_id (projected (ledger w)))
  /\ (forall id, has_id id (executed (ledger w)) = true ->
                 has_id id (projected (ledger w)) = false)
  /\ (forall c, admissible w c -> exists v w', run_call w c = Ok (v, w')).
Proof.
  intros Hreach.
  assert (Hok : world_ok w).
  { apply (reachable_ok (initial t0 n name)); [|exact Hreach].
    split; constructor. }
  pose proof Hok as [Hnd _]. unfold ids in Hnd. rewrite map_app in Hnd.
  apply NoDup_app in Hnd as (He & Hdisj & Hp).
  repeat split; auto.
  - intros id Hin. apply has_id_elem_of, Hdisj in Hin.
    destruct (has_id id (projected (ledger w))) eqn:Hhas; [|reflexivity].
    apply has_id_elem_of in Hhas. contradiction.
  - intros c Hadm. destruct (run_call_ok w c Hok Hadm) as (v & w' & Hrun & _).
    eauto.
Qed.

End Invariant.

(** ** Projected balance *)

Section FutureFacts.
Context {A : Type} `{Amount A}.
Implicit Types (l : Ledger A) (flow : Flow A) (M : BalanceModule) (w : World A).

(** A projected flow dated after the timestamp leaves the running
    balance as it is. *)
Lemma future_step_later asOf (balance : A) flow :
  leb (time_executed flow) asOf = false -> future_step asOf balance flow = balance.
Proof. intros Hlater. unfold future_step. now rewrite Hlater. Qed.

(** A one-off flow due by the timestamp adds its size once. *)
Lemma future_step_once asOf (balance : A) flow :
  leb (time_executed flow) asOf = true -> recurrent flow = 0 ->
  future_step asOf balance flow = amt_add balance (size flow).
Proof. intros Hdue Hrec. unfold future_step. now rewrite Hdue, Hrec. Qed.

(** A recurring flow due by the timestamp adds its size times the
    number of whole periods elapsed. *)
Lemma future_step_recurring asOf (balance : A) flow :
  leb (time_executed flow) asOf = true -> recurrent flow <> 0 ->
  future_step asOf balance flow =
  amt_add balance
    (amt_scale (size flow)
               (sub_days asOf (time_executed flow) / recurrent flow)).
Proof.
  intros Hdue Hrec. unfold future_step. rewrite Hdue.
  apply Z.eqb_neq in Hrec. now rewrite Hrec.
Qed.

(** The projected flows dated after the timestamp can be left out. *)
Lemma fold_future_step_due asOf (flows : list (Flow A)) (balance : A) :
  fold_left (future_step asOf) flows balance =
  fold_left (future_step asOf)
    (List.filter (fun flow => leb (time_executed flow) asOf) flows) balance.
Proof.
  revert balance; induction flows as [|flow rest IH]; intros balance; simpl.
  - reflexivity.
  - destruct (leb (time_executed flow) asOf) eqn:Hdue; simpl.
    + apply IH.
    + rewrite future_step_later by assumption. apply IH.
Qed.

(** What [get_future_balance] computes: it starts from [get_balance]
    at its default timestamp and runs through the projected flows due
    by [asOf]; the ledger is not changed by the call. *)
Lemma get_future_balance_unfold w asOf :
  run_call w (GetFutureBalance asOf) =
  Ok (VNum
        (fold_left (future_step asOf)
           (List.filter (fun flow => leb (time_executed flow) asOf)
                        (projected (ledger w)))
           (get_balance (balance_module w) (ledger w)
                        (Some (get_balance_defaults (balance_module w))))),
      w).
Proof.
  simpl. unfold get_future_balance. now rewrite fold_future_step_due.
Qed.

(** C3: a recurring projected flow (period [P > 0], amount [A], template
    time [t0 <= asOf]) adds to the projected balance exactly
    [A * floor(elapsed / P)], where [elapsed] is [(asOf - t0).days]:
    [elapsed = k * P] counts as [k] occurrences, as does any
    [elapsed] short of the next period by less than [P] (floor, not
    ceiling), and zero elapsed days count as no occurrence, the amount
    added being [A * 0]. *)
Theorem recurring_contribution M l pre flow post (asOf : datetime) :
  projected l = pre ++ flow :: post ->
  recurrent flow > 0 ->
  leb (time_executed flow) asOf = true ->
  let elapsed := sub_days asOf (time_executed flow) in
  let occurrences := elapsed / recurrent flow in
  get_future_balance M l asOf =
    fold_left (future_step asOf) post
      (amt_add (fold_left (future_step asOf) pre (get_balance M l None))
               (amt_scale (size flow) occurrences))
  /\ (forall k, elapsed = k * recurrent flow -> occurrences = k)
  /\ (forall k r, elapsed = k * recurrent flow + r ->
                  0 <= r < recurrent flow -> occurrences = k)
  /\ (elapsed = 0 -> occurrences = 0).
Proof.
  intros Hsplit Hrec Hdue elapsed occurrences. repeat split.
  - unfold get_future_balance. rewrite Hsplit, fold_left_app. simpl.
    rewrite future_step_recurring by (assumption || lia). reflexivity.
  - intros k Hk. unfold occurrences. rewrite Hk. apply Z.div_mul. lia.
  - intros k r Hk Hr. unfold occurrences. rewrite Hk.
    rewrite Z.add_comm, Z.div_add by lia.
    rewrite Z.div_small by lia. lia.
  - intros H0. unfold occurrences. rewrite H0. apply Z.div_0_l. lia.
Qed.

Lemma reachable_balance_module w0 w :
  reachable w0 w -> balance_module w = balance_module w0.
Proof.
  induction 1 as [|w w' c v Hreach IH Hadm Hrun]; [reflexivity|].
  rewrite <- IH. clear IH Hreach Hadm.
  destruct c; simpl in Hrun;
    repeat match goal with
           | H : context [let '(_, _) := ?x in _] |- _ => destruct x
           | H : context [mbind _ ?x] |- _ => destruct x; simpl in H
           end;
    inversion Hrun; reflexivity.
Qed.

(** C10: the default of [_timestamp] is the reading of the clock when
    the balance module was imported.  In every state [w] the process
    reaches afterwards, whatever its clock reads and whatever its
    ledger holds, [get_balance(ledger)] sums the executed flows dated
    at most the import date, and [get_future_balance] starts from that
    same sum. *)
Theorem default_timestamp_is_import_time (t0 : datetime) (n : Z) l0 w :
  reachable (boot t0 n l0) w ->
  get_balance_defaults (balance_module w) = t0
  /\ run_call w (GetBalance None) =
       Ok (VNum (sum_executed_upto (to_date t0) (executed (ledger w)) amt_zero), w)
  /\ (forall asOf,
        run_call w (GetFutureBalance asOf) =
        Ok (VNum (fold_left (future_step asOf) (projected (ledger w))
                    (sum_executed_upto (to_date t0) (executed (ledger w)) amt_zero)),
            w)).
Proof.
  intros Hreach. apply reachable_balance_module in Hreach. simpl in Hreach.
  repeat split.
  - now rewrite Hreach.
  - simpl. unfold get_balance, py_sum. rewrite Hreach; simpl.
    now rewrite sum_executed_upto_fold.
  - intros asOf. simpl. unfold get_future_balance, get_balance, py_sum.
    rewrite Hreach; simpl. now rewrite sum_executed_upto_fold.
Qed.

End FutureFacts.

(** ** Loading a ledger *)

Section SaveFacts.
Context {A : Type} `{Amount A}.

(** C8, as the code has it: when reading the file fails, the handler
    calls [Ledger()] without the required [account_name], so
    [load_ledger] raises [TypeError] instead of returning an empty
    ledger. *)
Theorem load_ledger_failure_raises (unpickle : string -> result (Ledger A))
    (load_path : string) (e : exn) :
  unpickle load_path = Raise e ->
  load_ledger unpickle load_path = Raise TypeError.
Proof. intros Hfail. unfold load_ledger. now rewrite Hfail. Qed.

End SaveFacts.

(** ** Month keys and dicts *)

Lemma str_of_int_inj (a b : Z) :
  a <> 0 -> b <> 0 -> str_of_int a = str_of_int b -> a = b.
Proof.
  intros Ha Hb Heq. unfold str_of_int in Heq.
  assert (Hnz : forall n, n <> 0 ->
            Z.to_int n <> Decimal.Pos Decimal.Nil /\
            Z.to_int n <> Decimal.Neg Decimal.Nil).
  { intros n Hn. split; intros Hnil; apply Hn;
      rewrite <- (DecimalZ.of_to n), Hnil; reflexivity. }
  destruct (Hnz a Ha) as [Ha1 Ha2]. destruct (Hnz b Hb) as [Hb1 Hb2].
  pose proof (DecimalString.NilZero.isi _ Ha1 Ha2) as Hia.
  pose proof (DecimalString.NilZero.isi _ Hb1 Hb2) as Hib.
  rewrite Heq, Hib in Hia. inversion Hia as [Hint].
  rewrite <- (DecimalZ.of_to a), <- (DecimalZ.of_to b). now rewrite Hint.
Qed.

Lemma string_length_append (s t : string) :
  String.length (s ++ t)%string = (String.length s + String.length t)%nat.
Proof.
  induction s as [|c s IH]; cbv [String.append]; fold String.append; simpl;
    [reflexivity | now rewrite IH].
Qed.

Lemma string_app_inj_suffix (s1 s2 t1 t2 : string) :
  String.length t1 = String.length t2 ->
  (s1 ++ t1)%string = (s2 ++ t2)%string -> s1 = s2 /\ t1 = t2.
Proof.
  revert s2; induction s1 as [|c s1 IH]; intros [|c' s2] Hlen Heq;
    cbv [String.append] in Heq; fold String.append in Heq.
  - auto.
  - subst t1. simpl in Hlen. rewrite string_length_append in Hlen. lia.
  - subst t2. simpl in Hlen. rewrite string_length_append in Hlen. lia.
  - inversion Heq; subst. destruct (IH s2 Hlen) as [-> ->]; auto.
Qed.

Lemma format_02d_month (m : Z) :
  1 <= m <= 12 -> String.length (format_02d m) = 2%nat.
Proof.
  intros Hm.
  assert (Hcases : m = 1 \/ m = 2 \/ m = 3 \/ m = 4 \/ m = 5 \/ m = 6 \/
                   m = 7 \/ m = 8 \/ m = 9 \/ m = 10 \/ m = 11 \/ m = 12) by lia.
  repeat destruct Hcases as [->|Hcases]; try subst m; reflexivity.
Qed.

Lemma format_02d_month_inj (m m' : Z) :
  1 <= m <= 12 -> 1 <= m' <= 12 -> format_02d m = format_02d m' -> m = m'.
Proof.
  intros Hm Hm'.
  assert (Hcases : m = 1 \/ m = 2 \/ m = 3 \/ m = 4 \/ m = 5 \/ m = 6 \/
                   m = 7 \/ m = 8 \/ m = 9 \/ m = 10 \/ m = 11 \/ m = 12) by lia.
  assert (Hcases' : m' = 1 \/ m' = 2 \/ m' = 3 \/ m' = 4 \/ m' = 5 \/ m' = 6 \/
                    m' = 7 \/ m' = 8 \/ m' = 9 \/ m' = 10 \/ m' = 11 \/ m' = 12) by lia.
  clear Hm Hm'.
  repeat destruct Hcases as [->|Hcases]; try subst m;
    repeat destruct Hcases' as [->|Hcases']; try subst m';
    vm_compute; intros Heq; congruence.
Qed.

(** Two months with the same key are the same month. *)
Lemma month_key_inj (a b : datetime) :
  1 <= year a -> 1 <= year b -> 1 <= month a <= 12 -> 1 <= month b <= 12 ->
  month_key a = month_key b -> month_index a = month_index b.
Proof.
  intros Hya Hyb Hma Hmb Hkey. unfold month_key in Hkey.
  apply string_app_inj_suffix in Hkey as [Hy Hm].
  - apply str_of_int_inj in Hy; [|lia|lia].
    apply (string_app_inj_suffix "-" "-") in Hm as [_ Hm];
      [|now rewrite !format_02d_month].
    apply format_02d_month_inj in Hm; [|lia|lia].
    unfold month_index. lia.
  - rewrite !string_length_append, !format_02d_month by lia. reflexivity.
Qed.

Lemma dict_get_set_eq {V : Type} (d : dict V) (k : string) (v : V) :
  dict_get (dict_set d k v) k = Some v.
Proof.
  induction d as [|[k' v'] d IH]; simpl.
  - now rewrite decide_True.
  - destruct (decide (k' = k)) as [->|Hne]; simpl.
    + now rewrite decide_True.
    + now rewrite decide_False.
Qed.

Lemma dict_get_set_ne {V : Type} (d : dict V) (k k' : string) (v : V) :
  k <> k' -> dict_get (dict_set d k v) k' = dict_get d k'.
Proof.
  intros Hne. induction d as [|[k0 v0] d IH]; simpl.
  - now rewrite decide_False.
  - destruct (decide (k0 = k)) as [->|Hne0]; simpl.
    + now rewrite !decide_False.
    + destruct (decide (k0 = k')); [reflexivity | exact IH].
Qed.

(** ** Walking through the months *)

Lemma days_in_month_bounds (y m : Z) : 28 <= days_in_month y m <= 31.
Proof.
  unfold days_in_month.
  destruct (m =? 2); [destruct (is_leap y); lia|].
  destruct ((m =? 4) || (m =? 6) || (m =? 9) || (m =? 11)); lia.
Qed.

(** An earlier or equal datetime is in an earlier or the same month. *)
Lemma leb_month_index (a b : datetime) :
  1 <= month a <= 12 -> 1 <= month b <= 12 ->
  leb a b = true -> month_index a <= month_index b.
Proof.
  intros Ha Hb. unfold leb, fields, month_index. cbn [lex_compare].
  destruct (Z.compare_spec (year a) (year b)) as [Hy|Hy|Hy]; [|lia|discriminate].
  destruct (Z.compare_spec (month a) (month b)) as [Hm|Hm|Hm];
    [lia|lia|discriminate].
Qed.

(** One day further on the way from the 28th into the next month. *)
Lemma next_day_walk (c r : datetime) (k : Z) :
  1 <= month c <= 12 -> 0 <= k < 4 ->
  (year r = year c /\ month r = month c /\ day r = 28 + k /\
   day r <= days_in_month (year c) (month c))
  \/ (month_index r = month_index c + 1 /\ 1 <= month r <= 12 /\ 1 <= day r <= k) ->
  (year (next_day r) = year c /\ month (next_day r) = month c /\
   day (next_day r) = 28 + (k + 1) /\
   day (next_day r) <= days_in_month (year c) (month c))
  \/ (month_index (next_day r) = month_index c + 1 /\
      1 <= month (next_day r) <= 12 /\ 1 <= day (next_day r) <= k + 1).
Proof.
  intros Hc Hk Hr. unfold next_day, month_index in *.
  pose proof (days_in_month_bounds (year r) (month r)) as Hdim.
  destruct Hr as [(Hy & Hm & Hd & Hle)|(Hidx & Hm & Hd)].
  - rewrite Hy, Hm in *.
    destruct (Z.ltb_spec (day r) (days_in_month (year c) (month c))); simpl.
    + left. lia.
    + right. destruct (Z.ltb_spec (month c) 12); simpl; lia.
  - destruct (Z.ltb_spec (day r) (days_in_month (year r) (month r))); [|lia].
    simpl. right. lia.
Qed.

(** The first [k] days from the 28th on. *)
Lemma next_day_walk_iter (c : datetime) (k : nat) :
  1 <= month c <= 12 -> (k <= 4)%nat ->
  let r := Nat.iter k next_day (replace_day c 28) in
  (year r = year c /\ month r = month c /\ day r = 28 + Z.of_nat k /\
   day r <= days_in_month (year c) (month c))
  \/ (month_index r = month_index c + 1 /\ 1 <= month r <= 12 /\
      1 <= day r <= Z.of_nat k).
Proof.
  intros Hc. induction k as [|k IH]; intros Hk.
  - left. pose proof (days_in_month_bounds (year c) (month c)).
    cbn [Nat.iter nat_rect replace_day year month day Z.of_nat]. lia.
  - cbv zeta in *. rewrite Nat.iter_succ.
    replace (Z.of_nat (S k)) with (Z.of_nat k + 1) by lia.
    apply next_day_walk; [exact Hc | lia | apply IH; lia].
Qed.

(** [current_date.replace(day=28) + timedelta(days=4)] is in the next
    month. *)
Lemma next_month_step (c : datetime) :
  1 <= month c <= 12 ->
  month_index (Nat.iter 4 next_day (replace_day c 28)) = month_index c + 1 /\
  1 <= month (Nat.iter 4 next_day (replace_day c 28)) <= 12 /\
  year c <= year (Nat.iter 4 next_day (replace_day c 28)) <= year c + 1.
Proof.
  intros Hc.
  pose proof (days_in_month_bounds (year c) (month c)) as Hdim.
  pose proof (next_day_walk_iter c 4 Hc (Nat.le_refl 4)) as H4. cbv zeta in H4.
  revert H4. generalize (Nat.iter 4 next_day (replace_day c 28)). intros r H4.
  destruct H4 as [(_ & _ & Hd & Hle)|(Hidx & Hm & _)]; [lia|].
  unfold month_index in *. lia.
Qed.

(** [current_date.replace(day=1) - timedelta(days=1)] is in the previous
    month. *)
Lemma prev_month_step (c : datetime) :
  1 <= month c <= 12 ->
  month_index (Nat.iter 1 prev_day (replace_day c 1)) = month_index c - 1 /\
  1 <= month (Nat.iter 1 prev_day (replace_day c 1)) <= 12 /\
  year c - 1 <= year (Nat.iter 1 prev_day (replace_day c 1)) <= year c.
Proof.
  intros Hc. cbn [Nat.iter nat_rect]. unfold prev_day, month_index.
  cbn [replace_day year month day].
  destruct (Z.ltb_spec 1 1); [lia|].
  destruct (Z.ltb_spec 1 (month c)); cbn [year month]; lia.
Qed.

Lemma add_days_unfold (dt : datetime) (n : nat) :
  add_days dt n = check_range (Nat.iter n next_day dt).
Proof. reflexivity. Qed.

Lemma sub_days_from_unfold (dt : datetime) (n : nat) :
  sub_days_from dt n = check_range (Nat.iter n prev_day dt).
Proof. reflexivity. Qed.

Lemma check_range_ok (dt : datetime) :
  MINYEAR <= year dt <= MAXYEAR -> check_range dt = Ok dt.
Proof.
  intros [Hlo Hhi]. unfold check_range.
  apply Z.leb_le in Hlo, Hhi. now rewrite Hlo, Hhi.
Qed.

(** ** The monthly series *)

Section SeriesFacts.
Context {A : Type} `{Amount A}.
Implicit Types (l : Ledger A) (M : BalanceModule) (d : dict A).

Lemma future_loop_turn (fuel : nat) M l (end_timestamp current_date : datetime) d :
  future_loop (S fuel) M l end_timestamp current_date d =
  if leb current_date end_timestamp then
    match add_days (replace_day current_date 28) 4 with
    | Raise e => Some (Raise e)
    | Ok next_month =>
        future_loop fuel M l end_timestamp (replace_day next_month 1)
          (dict_set d (month_key current_date)
             (amt_round2
                (get_future_balance M l
                   (if ltb end_timestamp (month_end current_date)
                    then end_timestamp else month_end current_date))))
    end
  else Some (Ok d).
Proof. reflexivity. Qed.

Lemma past_loop_turn (fuel : nat) M l (end_timestamp current_date : datetime) d :
  past_loop (S fuel) M l end_timestamp current_date d =
  if geb current_date end_timestamp then
    match sub_days_from (replace_day current_date 1) 1 with
    | Raise e => Some (Raise e)
    | Ok previous =>
        past_loop fuel M l end_timestamp previous
          (dict_set d (month_key current_date)
             (get_balance M l (Some (month_end current_date))))
    end
  else Some (Ok d).
Proof. reflexivity. Qed.

(** Once the forward walk has left the month of [now], it ends without
    raising and without writing to the key of that month. *)
Lemma future_loop_later M l (end_timestamp now : datetime) :
  1 <= year now -> 1 <= month now <= 12 ->
  1 <= month end_timestamp <= 12 -> year end_timestamp < MAXYEAR ->
  forall (fuel : nat) (current_date : datetime) d,
    1 <= month current_date <= 12 ->
    month_index now < month_index current_date ->
    month_index end_timestamp - month_index current_date + 1 < Z.of_nat fuel ->
    (0 < fuel)%nat ->
    exists d',
      future_loop fuel M l end_timestamp current_date d = Some (Ok d') /\
      dict_get d' (month_key now) = dict_get d (month_key now).
Proof.
  intros Hynow Hmnow Hmend Hyend.
  induction fuel as [|fuel IH]; intros cur d Hmcur Hafter Hfuel Hpos; [lia|].
  rewrite future_loop_turn. destruct (leb cur end_timestamp) eqn:Hle; [|eauto].
  pose proof (leb_month_index _ _ Hmcur Hmend Hle) as Hidx.
  destruct (next_month_step cur Hmcur) as (Hnext & Hmnext & Hynext).
  rewrite add_days_unfold.
  revert Hnext Hmnext Hynext.
  generalize (Nat.iter 4 next_day (replace_day cur 28)).
  intros r Hnext Hmnext Hynext. unfold month_index in *.
  rewrite check_range_ok by (unfold MINYEAR, MAXYEAR in *; lia).
  set (next := replace_day r 1).
  assert (Hm' : 1 <= month next <= 12) by (subst next; simpl; lia).
  assert (Hafter' : year now * 12 + month now < year next * 12 + month next)
    by (subst next; simpl; lia).
  assert (Hfuel' : year end_timestamp * 12 + month end_timestamp
                   - (year next * 12 + month next) + 1 < Z.of_nat fuel)
    by (subst next; simpl; lia).
  assert (Hpos' : (0 < fuel)%nat) by lia.
  destruct (IH next
              (dict_set d (month_key cur)
                 (amt_round2
                    (get_future_balance M l
                       (if ltb end_timestamp (month_end cur)
                        then end_timestamp else month_end cur))))
              Hm' Hafter' Hfuel' Hpos')
    as (d' & Hrun & Hget).
  exists d'. split; [exact Hrun|].
  rewrite Hget. apply dict_get_set_ne.
  intros Hkey. apply month_key_inj in Hkey; unfold month_index in *; lia.
Qed.

(** The same for the backward walk. *)
Lemma past_loop_earlier M l (end_timestamp now : datetime) :
  1 <= year now <= MAXYEAR -> 1 <= month now <= 12 ->
  1 <= month end_timestamp <= 12 -> MINYEAR < year end_timestamp ->
  forall (fuel : nat) (current_date : datetime) d,
    1 <= month current_date <= 12 ->
    month_index current_date < month_index now ->
    month_index current_date - month_index end_timestamp + 1 < Z.of_nat fuel ->
    (0 < fuel)%nat ->
    exists d',
      past_loop fuel M l end_timestamp current_date d = Some (Ok d') /\
      dict_get d' (month_key now) = dict_get d (month_key now).
Proof.
  intros Hynow Hmnow Hmend Hyend.
  induction fuel as [|fuel IH]; intros cur d Hmcur Hbefore Hfuel Hpos; [lia|].
  rewrite past_loop_turn. destruct (geb cur end_timestamp) eqn:Hge; [|eauto].
  unfold geb in Hge.
  pose proof (leb_month_index _ _ Hmend Hmcur Hge) as Hidx.
  destruct (prev_month_step cur Hmcur) as (Hprev & Hmprev & Hyprev).
  rewrite sub_days_from_unfold.
  revert Hprev Hmprev Hyprev.
  generalize (Nat.iter 1 prev_day (replace_day cur 1)).
  intros previous Hprev Hmprev Hyprev. unfold month_index in *.
  rewrite check_range_ok by (unfold MINYEAR, MAXYEAR in *; lia).
  assert (Hbefore' : year previous * 12 + month previous
                     < year now * 12 + month now) by lia.
  assert (Hfuel' : year previous * 12 + month previous
                   - (year end_timestamp * 12 + month end_timestamp) + 1
                   < Z.of_nat fuel) by lia.
  assert (Hpos' : (0 < fuel)%nat) by lia.
  destruct (IH previous
              (dict_set d (month_key cur)
                 (get_balance M l (Some (month_end cur))))
              Hmprev Hbefore' Hfuel' Hpos')
    as (d' & Hrun & Hget).
  exists d'. split; [exact Hrun|].
  rewrite Hget. apply dict_get_set_ne.
  intros Hkey. apply month_key_inj in Hkey;
    unfold month_index, MINYEAR in *; lia.
Qed.

(** The entry of the current month in the forward series. *)
Lemma future_series_current_month M l (now end_timestamp : datetime) (fuel : nat) :
  valid now -> valid end_timestamp ->
  leb now end_timestamp = true -> year end_timestamp < MAXYEAR ->
  month_index end_timestamp - month_index now + 2 < Z.of_nat fuel ->
  exists d,
    get_future_monthly_balances fuel M now l end_timestamp = Some (Ok d) /\
    dict_get d (month_key now) =
    Some (amt_round2
            (get_future_balance M l
               (if ltb end_timestamp (month_end now)
                then end_timestamp else month_end now))).
Proof.
  intros (Hynow & Hmnow & _) (Hyend & Hmend & _) Hle Hmax Hfuel.
  unfold get_future_monthly_balances.
  pose proof (leb_month_index _ _ Hmnow Hmend Hle) as Hidx.
  destruct fuel as [|fuel]; [lia|]. rewrite future_loop_turn, Hle.
  destruct (next_month_step now Hmnow) as (Hnext & Hmnext & Hynext).
  rewrite add_days_unfold.
  revert Hnext Hmnext Hynext.
  generalize (Nat.iter 4 next_day (replace_day now 28)).
  intros r Hnext Hmnext Hynext.
  rewrite check_range_ok by (unfold MINYEAR, MAXYEAR, month_index in *; lia).
  set (next := replace_day r 1).
  assert (Hynow1 : 1 <= year now) by (unfold MINYEAR in *; lia).
  assert (Hm' : 1 <= month next <= 12) by (subst next; simpl; lia).
  assert (Hafter : month_index now < month_index next)
    by (subst next; unfold month_index in *; simpl; lia).
  assert (Hfuel' : month_index end_timestamp - month_index next + 1
                   < Z.of_nat fuel)
    by (subst next; unfold month_index in *; simpl; lia).
  assert (Hpos : (0 < fuel)%nat) by lia.
  match goal with
  | |- context [future_loop fuel M l end_timestamp next ?d0] =>
      destruct (future_loop_later M l end_timestamp now Hynow1 Hmnow Hmend Hmax
                  fuel next d0 Hm' Hafter Hfuel' Hpos) as (d & Hrun & Hget)
  end.
  exists d. split; [exact Hrun|]. rewrite Hget.
  apply (dict_get_set_eq [] (month_key now)).
Qed.

(** The entry of the current month in the backward series. *)
Lemma past_series_current_month M l (now end_timestamp : datetime) (fuel : nat) :
  valid now -> valid end_timestamp ->
  geb now end_timestamp = true -> MINYEAR < year end_timestamp ->
  month_index now - month_index end_timestamp + 2 < Z.of_nat fuel ->
  exists d,
    get_past_monthly_balances fuel M now l end_timestamp = Some (Ok d) /\
    dict_get d (month_key now) = Some (get_balance M l (Some (month_end now))).
Proof.
  intros (Hynow & Hmnow & _) (Hyend & Hmend & _) Hge Hmin Hfuel.
  unfold get_past_monthly_balances.
  pose proof (leb_month_index _ _ Hmend Hmnow Hge) as Hidx.
  destruct fuel as [|fuel]; [lia|]. rewrite past_loop_turn, Hge.
  destruct (prev_month_step now Hmnow) as (Hprev & Hmprev & Hyprev).
  rewrite sub_days_from_unfold.
  revert Hprev Hmprev Hyprev.
  generalize (Nat.iter 1 prev_day (replace_day now 1)).
  intros previous Hprev Hmprev Hyprev.
  assert (Hyears : year end_timestamp <= year now)
    by (unfold month_index in *; lia).
  rewrite check_range_ok by (unfold MINYEAR, MAXYEAR in *; lia).
  assert (Hbefore : month_index previous < month_index now) by lia.
  assert (Hfuel' : month_index previous - month_index end_timestamp + 1
                   < Z.of_nat fuel) by lia.
  assert (Hpos : (0 < fuel)%nat) by lia.
  match goal with
  | |- context [past_loop fuel M l end_timestamp previous ?d0] =>
      destruct (past_loop_earlier M l end_timestamp now Hynow Hmnow Hmend Hmin
                  fuel previous d0 Hmprev Hbefore Hfuel' Hpos) as (d & Hrun & Hget)
  end.
  exists d. split; [exact Hrun|]. rewrite Hget.
  apply (dict_get_set_eq [] (month_key now)).
Qed.

End SeriesFacts.

Section SeriesClaim.
Context {A : Type} `{Amount A}.
Implicit Types (l : Ledger A) (M : BalanceModule).

(** C9, as the code has it: with enough turns both walks return, and
    the entry of the current month is, in the forward series, the
    projected balance at the last instant of the current month (or at
    [end_timestamp] when that comes first) rounded to two decimals,
    and, in the backward series, the realized balance at the last
    instant of the current month.  Neither is the realized balance at
    [now] in general. *)
Theorem current_month_entries M l (now end_future end_past : datetime) :
  valid now -> valid end_future -> valid end_past ->
  leb now end_future = true -> year end_future < MAXYEAR ->
  geb now end_past = true -> MINYEAR < year end_past ->
  exists fuel0 : nat, forall fuel : nat, (fuel0 <= fuel)%nat ->
    (exists d,
        get_future_monthly_balances fuel M now l end_future = Some (Ok d) /\
        dict_get d (month_key now) =
        Some (amt_round2
                (get_future_balance M l
                   (if ltb end_future (month_end now)
                    then end_future else month_end now))))
    /\ (exists d,
          get_past_monthly_balances fuel M now l end_past = Some (Ok d) /\
          dict_get d (month_key now) =
          Some (get_balance M l (Some (month_end now)))).
Proof.
  intros Hnow Hfut Hpast Hle Hmax Hge Hmin.
  exists (Z.to_nat (Z.max (month_index end_future - month_index now)
                          (month_index now - month_index end_past) + 3)).
  intros fuel Hfuel. split.
  - apply future_series_current_month; auto. lia.
  - apply past_series_current_month; auto. lia.
Qed.

End SeriesClaim.

(** ** The properties on concrete inputs *)

Section Reachability.
Context {A : Type} `{Amount A}.

Lemma run_calls_reachable (w0 : World A) (cs : list (call A)) :
  forall w vs w',
    reachable w0 w -> admissible_calls w cs ->
    run_calls w cs = Ok (vs, w') -> reachable w0 w'.
Proof.
  induction cs as [|c cs IH]; intros w vs w' Hreach Hadm Hrun; simpl in *.
  - now inversion Hrun; subst.
  - destruct Hadm as [Hc Hrest].
    destruct (run_call w c) as [[v w1]|e] eqn:Hcall; [|contradiction].
    simpl in Hrun.
    destruct (run_calls w1 cs) as [[vs1 w2]|e] eqn:Hcalls; [|discriminate].
    simpl in Hrun. inversion Hrun; subst.
    eapply IH; [|exact Hrest|exact Hcalls].
    eapply reach_call; eauto.
Defined.

End Reachability.

Import Sample.

(** C2, at an input where the code departs from it.  The process of
    [Sample.two_days] imported the balance module on March 10th; on
    March 12th its ledger holds one executed flow of 100 dated March
    11th and no projected flow.  The realized balance at that moment,
    [get_balance(ledger, now)], is 100, yet
    [get_future_balance(ledger, April 1st)] returns 0: it starts from
    the balance at the import date, not from the balance now. *)
Theorem get_future_balance_starts_from_import_date :
  run_calls (initial imported (-1) "account") two_days =
  Ok ([VNone; VFlow wages; VNone; VNone; VNum 100; VNum 0], after_two_days).
Proof. reflexivity. Qed.

(** C9, as stated, fails on [Sample.march_ledger] on March 10th: the
    entry of ["2024-03"] is 137 in the forward series (the one-off of 7
    and three occurrences of 10 fall due by March 31st) and 150 in the
    backward series (the flow executed on March 25th is counted), while
    the realized balance now is 100. *)
Lemma seam_counterexample :
  exists d_future d_past : dict Z,
    get_future_monthly_balances 12 M now march_ledger (at_2024 6 15 0 0)
      = Some (Ok d_future)
    /\ get_past_monthly_balances 12 M now march_ledger (at_2024 1 15 0 0)
      = Some (Ok d_past)
    /\ get_balance M march_ledger (Some now) = 100
    /\ dict_get d_future (month_key now) = Some 137
    /\ dict_get d_past (month_key now) = Some 150
    /\ dict_get d_future (month_key now) <> Some (get_balance M march_ledger (Some now))
    /\ dict_get d_past (month_key now) <> Some (get_balance M march_ledger (Some now)).
Proof.
  eexists _, _. split; [vm_compute; reflexivity|].
  split; [vm_compute; reflexivity|].
  repeat split; vm_compute; congruence.
Qed.

(** The bounds on the years in [current_month_entries] are needed: a
    forward walk that reaches December 9999, and a backward walk that
    reaches January of year 1, raise [OverflowError] when they step to
    the next month. *)
Example future_series_overflow :
  get_future_monthly_balances 5 M (mk_datetime 9999 11 5 12 0 0 0) march_ledger
    (mk_datetime 9999 12 31 0 0 0 0) = Some (Raise OverflowError).
Proof. vm_compute. reflexivity. Qed.

Example past_series_overflow :
  get_past_monthly_balances 5 M (mk_datetime 1 2 5 12 0 0 0) march_ledger
    (mk_datetime 1 1 1 0 0 0 0) = Some (Raise OverflowError).
Proof. vm_compute. reflexivity. Qed.

(** C1 on [Sample]: adding the refund of March 25th does not change the
    balance at March 10th. *)
Lemma get_balance_sum_upto_date_witness :
  date_ltb (to_date now) (to_date (time_executed refund)) = true
  /\ get_balance M (fst (add_flow (mk_Ledger "account" [salary] [] 1) refund false))
                 (Some now)
     = get_balance M (mk_Ledger "account" [salary] [] 1) (Some now).
Proof.
  split; [reflexivity|].
  apply (proj1 (proj2 (get_balance_sum_upto_date M _ now))). reflexivity.
Defined.

(** C3 on [Sample]: the rent, every 30 days from January 1st, has
    occurred once by January 31st. *)
Lemma recurring_contribution_witness :
  projected march_ledger = [gift] ++ rent :: []
  /\ recurrent rent > 0
  /\ leb (time_executed rent) (at_2024 1 31 0 0) = true
  /\ sub_days (at_2024 1 31 0 0) (time_executed rent) / recurrent rent = 1.
Proof.
  assert (Hgt : recurrent rent > 0) by reflexivity.
  split; [reflexivity|]. split; [exact Hgt|]. split; [reflexivity|].
  apply (proj1 (proj2 (recurring_contribution M march_ledger [gift] rent []
                         (at_2024 1 31 0 0) eq_refl Hgt eq_refl)) 1).
  reflexivity.
Defined.

(** C4 on [Sample]: executing the rent, projected flow 4, as -48 on
    March 10th.  The executed flow 5 carries -48 and March 10th; the
    projected rent stays second, still 10 every 30 days, now dated
    March 10th instead of January 1st. *)
Lemma execute_flow_found_witness :
  has_id 4 (projected march_ledger) = true
  /\ execute_flow 4 march_ledger 4 (-48) now =
     Ok (true, 5,
         mk_Ledger "account"
           [salary; refund; mk_Flow 5 (-48) "rent" now 30 ""]
           [gift; mk_Flow 4 10 "rent" now 30 ""] 4).
Proof.
  split; [reflexivity|].
  destruct (execute_flow_found 4 march_ledger 4 (-48) now eq_refl)
    as (pre & flow & post & l' & _ & _ & _ & Hrun & _).
  rewrite Hrun. vm_compute in Hrun. injection Hrun as <-. reflexivity.
Defined.

(** C5 on [Sample]: adding the salary again is rejected. *)
Lemma add_flow_idempotent_on_collision_witness :
  has_id (flow_id salary) (projected march_ledger)
  || has_id (flow_id salary) (executed march_ledger) = true
  /\ exists msg, add_flow march_ledger salary true = (march_ledger, Some msg).
Proof.
  split; [reflexivity|].
  apply (proj1 (add_flow_idempotent_on_collision march_ledger)). reflexivity.
Defined.

(** C6 on [Sample]: no projected flow has id 9. *)
Lemma not_found_changes_nothing_witness :
  has_id 9 (projected march_ledger) = false
  /\ execute_flow 4 march_ledger 9 5 now = Ok (false, 4, march_ledger)
  /\ remove_projected_flow march_ledger 9 = (false, march_ledger).
Proof.
  split; [reflexivity|].
  apply (not_found_changes_nothing 4 march_ledger 9 5 now). reflexivity.
Defined.

(** The state of [Sample.after_two_days] is reached by the calls of
    [Sample.two_days]. *)
Lemma two_days_reachable :
  reachable (initial imported (-1) "account") after_two_days.
Proof.
  eapply (run_calls_reachable _ two_days).
  - apply reach_start.
  - simpl. repeat split. lia.
  - reflexivity.
Defined.

(** C7, at an input where the code departs from it.  A new account:
    [AppManager.__init__] finds no ledger file, makes the empty ledger
    and leaves [Flow._id_counter] at 0.  On March 10th the user submits
    a rent of 10 every 30 days dated February 9th: flow 1 is executed,
    its copy, flow 2, is projected and due that day.  The user executes
    it: the executed flow gets id 3, and [last_id] stays 2.  The
    application is started again on April 9th on the saved ledger:
    [__init__] sets the counter back to [last_id = 2].  Flow 2 is due
    again and the user executes it: the new executed flow gets id 3 a
    second time. *)
Theorem uniqueness_lost_after_restart :
  AppManager_new (-1)
    (ledger_from_path false (Ok tt) (Ok true) no_file Restart.path "account")
    = Ok (mk_AppManager (mk_Ledger "account" [] [] 0) Restart.temporary, 0)
  /\ submit_button_pressed 0
       (mk_AppManager (mk_Ledger "account" [] [] 0) Restart.filled) "" now now
     = (2, mk_AppManager Restart.submitted (Flow_clear Restart.filled))
  /\ flows_to_be_executed now Restart.submitted
     = Ok [mk_Flow 2 10 "rent" (at_2024 2 9 0 0) 30 ""]
  /\ execute_flow 2 Restart.submitted 2 10 now = Ok (true, 3, Restart.first_session)
  /\ NoDup (ids Restart.first_session)
  /\ AppManager_new (-1)
       (ledger_from_path true (Ok tt) (Ok true) Restart.saved Restart.path "account")
     = Ok (mk_AppManager Restart.first_session Restart.temporary, 2)
  /\ flows_to_be_executed Restart.april_9 Restart.first_session
     = Ok [mk_Flow 2 10 "rent" now 30 ""]
  /\ execute_flow 2 Restart.first_session 2 10 Restart.april_9
     = Ok (true, 3, Restart.second_session)
  /\ map flow_id (executed Restart.second_session) = [1; 3; 3]
  /\ ~ NoDup (map flow_id (executed Restart.second_session)).
Proof.
  do 4 (split; [vm_compute; reflexivity|]).
  split; [apply (bool_decide_unpack _); vm_compute; exact I|].
  do 4 (split; [vm_compute; reflexivity|]).
  intros Hnd. apply (bool_decide_pack _) in Hnd. vm_compute in Hnd. exact Hnd.
Qed.

(** C8 on [Sample]: loading from a file that cannot be opened. *)
Lemma load_ledger_failure_raises_witness :
  no_file "ledger.pkl" = Raise OSError
  /\ load_ledger no_file "ledger.pkl" = Raise TypeError.
Proof.
  split; [reflexivity|].
  apply (load_ledger_failure_raises no_file "ledger.pkl" OSError). reflexivity.
Defined.

(** C10 on [Sample]: on March 12th, [get_balance(ledger)] still leaves
    out the flow of March 11th. *)
Lemma default_timestamp_is_import_time_witness :
  reachable (boot imported (-1) (mk_Ledger "account" [] [] 0)) after_two_days
  /\ run_call after_two_days (GetBalance None) = Ok (VNum 0, after_two_days).
Proof.
  split; [exact two_days_reachable|].
  exact (proj1 (proj2 (default_timestamp_is_import_time imported (-1) _
                         after_two_days two_days_reachable))).
Defined.

(** C9 on [Sample]: the entry of March in the forward series. *)
Lemma current_month_entries_witness :
  valid now /\ valid (at_2024 6 15 0 0) /\ valid (at_2024 1 15 0 0)
  /\ leb now (at_2024 6 15 0 0) = true /\ year (at_2024 6 15 0 0) < MAXYEAR
  /\ geb now (at_2024 1 15 0 0) = true /\ MINYEAR < year (at_2024 1 15 0 0)
  /\ exists (fuel : nat) (d : dict Z),
       get_future_monthly_balances fuel M now march_ledger (at_2024 6 15 0 0)
         = Some (Ok d)
       /\ dict_get d (month_key now) = Some 137.
Proof.
  assert (Hnow : valid now) by (unfold valid; repeat split; vm_compute; congruence).
  assert (Hfut : valid (at_2024 6 15 0 0)) by (unfold valid; repeat split; vm_compute; congruence).
  assert (Hpast : valid (at_2024 1 15 0 0)) by (unfold valid; repeat split; vm_compute; congruence).
  assert (Hmax : year (at_2024 6 15 0 0) < MAXYEAR) by reflexivity.
  assert (Hmin : MINYEAR < year (at_2024 1 15 0 0)) by reflexivity.
  do 7 (split; [first [assumption | reflexivity]|]).
  destruct (current_month_entries M march_ledger now (at_2024 6 15 0 0)
              (at_2024 1 15 0 0) Hnow Hfut Hpast eq_refl Hmax eq_refl Hmin)
    as [fuel0 Hfuel].
  destruct (Hfuel fuel0 (Nat.le_refl fuel0)) as [(d & Hrun & Hget) _].
  exists fuel0, d. split; [exact Hrun|]. rewrite Hget. reflexivity.
Defined.

(** * Further properties of the ledger *)

Section MoreLedgerFacts.
Context {A : Type} `{Amount A}.
Implicit Types (l : Ledger A) (flow : Flow A) (flows : list (Flow A)).

Lemma filter_id_length (id : Z) flows :
  (List.length (List.filter (fun flow => negb (flow_id flow =? id)%Z) flows)
   <= List.length flows)%nat.
Proof.
  induction flows as [|flow rest IH]; simpl; [lia|].
  destruct (negb (flow_id flow =? id)); simpl; lia.
Qed.

Lemma filter_id_shorter (id : Z) flows :
  has_id id flows = true ->
  (List.length (List.filter (fun flow => negb (flow_id flow =? id)%Z) flows)
   < List.length flows)%nat.
Proof.
  induction flows as [|flow rest IH]; simpl; [discriminate|].
  pose proof (filter_id_length id rest).
  destruct (flow_id flow =? id); simpl; intros Hhas; [lia|].
  specialize (IH Hhas). lia.
Qed.

Lemma filter_id_absent id flows :
  has_id id (List.filter (fun flow => negb (flow_id flow =? id)%Z) flows) = false.
Proof.
  induction flows as [|flow rest IH]; simpl; [reflexivity|].
  destruct (flow_id flow =? id) eqn:Heq; simpl; [exact IH|].
  now rewrite Heq, IH.
Qed.

Lemma filter_id_one (id : Z) flows :
  NoDup (map flow_id flows) -> has_id id flows = true ->
  S (List.length (List.filter (fun flow => negb (flow_id flow =? id)%Z) flows))
  = List.length flows.
Proof.
  induction flows as [|flow rest IH]; simpl; [discriminate|].
  intros Hnd Hhas. apply NoDup_cons in Hnd as [Hnew Hnd].
  destruct (Z.eqb_spec (flow_id flow) id) as [Heq|Hne]; simpl in *.
  - rewrite filter_other_ids; [reflexivity|].
    destruct (has_id id rest) eqn:Hrest; [|reflexivity].
    apply has_id_true in Hrest as (flow' & Hin & Hid). exfalso. apply Hnew.
    rewrite list_elem_of_In, in_map_iff. exists flow'. split; [congruence|exact Hin].
  - now rewrite (IH Hnd Hhas).
Qed.

(** X1: when a projected flow has the id, [remove_projected_flow]
    returns [True]; every projected flow with the id is gone and the
    others stay, in their order: the projected flows afterwards are
    those of before with an id other than [id], each as often and in
    the place it had, so that when one flow has the id, between the
    flows [pre] and the flows [post], what is left is [pre] followed by
    [post].  The executed flows, the account name and [last_id] are
    untouched.  A second call returns [False] and changes nothing.
    When the projected ids are unique, exactly one flow is removed. *)
Theorem remove_projected_flow_found l (id : Z) :
  has_id id (projected l) = true ->
  exists l',
    remove_projected_flow l id = (true, l') /\
    has_id id (projected l') = false /\
    (forall flow, In flow (projected l') <->
                  In flow (projected l) /\ flow_id flow <> id) /\
    projected l' =
      List.filter (fun flow => negb (flow_id flow =? id)) (projected l) /\
    (forall pre flow post,
       projected l = pre ++ flow :: post -> flow_id flow = id ->
       has_id id pre = false -> has_id id post = false ->
       projected l' = pre ++ post) /\
    executed l' = executed l /\ account_name l' = account_name l /\
    last_id l' = last_id l /\
    remove_projected_flow l' id = (false, l') /\
    (NoDup (map flow_id (projected l)) ->
     S (get_n_projections l') = get_n_projections l).
Proof.
  intros Hhas. eexists. unfold remove_projected_flow.
  split.
  { apply filter_id_shorter in Hhas. apply Nat.ltb_lt in Hhas.
    rewrite Hhas. reflexivity. }
  simpl. split; [apply filter_id_absent|].
  split.
  { intros flow. rewrite filter_In, negb_true_iff, Z.eqb_neq. tauto. }
  split; [reflexivity|].
  split.
  { intros pre flow post Hsplit Hid Hpre Hpost.
    rewrite Hsplit, List.filter_app. simpl.
    apply Z.eqb_eq in Hid. rewrite Hid. simpl.
    now rewrite !filter_other_ids by assumption. }
  do 3 (split; [reflexivity|]).
  split.
  - rewrite filter_other_ids by apply filter_id_absent.
    now rewrite Nat.ltb_irrefl.
  - intros Hnd. unfold get_n_projections; simpl. now apply filter_id_one.
Qed.

(** X2: adding a flow with a new id as a projection and removing it
    again gives back both partitions; only [last_id] keeps the id of
    the flow. *)
Theorem add_then_remove_projected l flow :
  has_id (flow_id flow) (projected l) = false ->
  has_id (flow_id flow) (executed l) = false ->
  remove_projected_flow (fst (add_flow l flow true)) (flow_id flow) =
  (true, mk_Ledger (account_name l) (executed l) (projected l) (flow_id flow)).
Proof.
  intros Hp He. unfold add_flow. rewrite Hp, He. simpl.
  unfold remove_projected_flow. simpl.
  rewrite List.filter_app, filter_other_ids by assumption.
  simpl. rewrite Z.eqb_refl. simpl. rewrite app_nil_r, length_app. simpl.
  replace (List.length (projected l) <? List.length (projected l) + 1)%nat
    with true by (symmetry; apply Nat.ltb_lt; lia).
  reflexivity.
Qed.

(** X3: [add_flow] adds one flow exactly when the id is in neither
    partition, and then [last_id] becomes that id; otherwise the number
    of flows and [last_id] stay.  The flag decides which partition
    grows. *)
Theorem add_flow_counts l flow (is_proj : bool) :
  let taken :=
    has_id (flow_id flow) (projected l) || has_id (flow_id flow) (executed l) in
  let l' := fst (add_flow l flow is_proj) in
  get_n_flows l' = (if taken then get_n_flows l else S (get_n_flows l)) /\
  get_n_projections l' =
    (if taken || negb is_proj then get_n_projections l
     else S (get_n_projections l)) /\
  last_id l' = (if taken then last_id l else flow_id flow).
Proof.
  unfold add_flow, get_n_flows, get_n_projections.
  destruct (has_id (flow_id flow) (projected l)); simpl; [auto|].
  destruct (has_id (flow_id flow) (executed l)); simpl; [auto|].
  destruct is_proj; simpl; rewrite ?length_app; simpl; repeat split; lia.
Qed.

(** X4: executing a projected flow at time [t] raises the realized
    balance at [T] by the realized amount [real_size], whatever the
    size of the projected flow was, when [t.date() <= T.date()], and
    leaves it unchanged otherwise. *)
Theorem execute_flow_realized_balance (M : BalanceModule) (n : Z) l (id : Z)
    (real_size : A) (t T : datetime) :
  has_id id (projected l) = true ->
  exists l',
    execute_flow n l id real_size t = Ok (true, n + 1, l') /\
    get_balance M l' (Some T) =
    if date_leb (to_date t) (to_date T)
    then amt_add (get_balance M l (Some T)) real_size
    else get_balance M l (Some T).
Proof.
  intros Hhas.
  destruct (execute_flow_first_match n l id real_size t Hhas)
    as (pre & flow & post & l' & _ & _ & _ & Hrun & Hex & _).
  exists l'. split; [exact Hrun|].
  destruct l' as [name' ex' proj' last']. simpl in Hex. subst ex'.
  now rewrite get_balance_snoc.
Qed.

(** X5: [get_balance_state] reads only the sizes of the projected
    flows.  Adding an executed flow does not change it, and neither
    does an [execute_flow] that removes no projected flow (the flow was
    not found, or it recurs and only its time was advanced). *)
Theorem get_balance_state_stable `{AmountSign A} l :
  (forall flow, get_balance_state (fst (add_flow l flow false)) = get_balance_state l)
  /\ (forall n id real_size t b n' l',
        execute_flow n l id real_size t = Ok (b, n', l') ->
        List.length (projected l') = List.length (projected l) ->
        get_balance_state l' = get_balance_state l).
Proof.
  split.
  - intros flow. unfold add_flow.
    destruct (has_id _ (projected l)); [reflexivity|].
    destruct (has_id _ (executed l)); reflexivity.
  - intros n id real_size t b n' l' Hrun Hlen.
    destruct (has_id id (projected l)) eqn:Hhas.
    + destruct (execute_flow_first_match n l id real_size t Hhas)
        as (pre & flow & post & l1 & Hsplit & _ & _ & Hrun1 & _ & _ & _ & Hzero & Hrec).
      rewrite Hrun in Hrun1. inversion Hrun1; subst l1.
      destruct (Z.eq_dec (recurrent flow) 0) as [Hflow|Hflow].
      * destruct (Hzero Hflow) as [_ Hshort]. lia.
      * destruct (Hrec Hflow) as [Hproj _].
        unfold get_balance_state. rewrite Hproj, Hsplit, !map_app. reflexivity.
    + rewrite execute_flow_absent in Hrun by assumption.
      now inversion Hrun; subst.
Qed.

End MoreLedgerFacts.

(** * The calendar *)

Ltac month_cases m :=
  let Hcases := fresh "Hcases" in
  assert (Hcases : m = 1 \/ m = 2 \/ m = 3 \/ m = 4 \/ m = 5 \/ m = 6 \/
                   m = 7 \/ m = 8 \/ m = 9 \/ m = 10 \/ m = 11 \/ m = 12) by lia;
  repeat destruct Hcases as [Hcases|Hcases]; subst m.

Lemma days_in_year (y : Z) :
  days_before_month y 13 = if is_leap y then 366 else 365.
Proof.
  unfold days_before_month, days_in_month. simpl. destruct (is_leap y); reflexivity.
Qed.

Lemma days_before_year_succ (y : Z) :
  days_before_year (y + 1) = days_before_year y + days_before_month y 13.
Proof.
  rewrite days_in_year. unfold days_before_year, is_leap.
  replace (y + 1 - 1) with y by lia.
  destruct (Z.eqb_spec (y mod 4) 0), (Z.eqb_spec (y mod 100) 0),
    (Z.eqb_spec (y mod 400) 0); simpl;
    Z.to_euclidean_division_equations; lia.
Qed.

Lemma days_before_month_succ (y m : Z) :
  1 <= m <= 12 ->
  days_before_month y (m + 1) = days_before_month y m + days_in_month y m.
Proof.
  intros Hm. month_cases m; unfold days_before_month, days_in_month; simpl;
    destruct (is_leap y); reflexivity.
Qed.

Lemma days_before_month_nonneg (y m : Z) :
  1 <= m <= 12 -> 0 <= days_before_month y m.
Proof.
  intros Hm. month_cases m; unfold days_before_month, days_in_month; simpl;
    destruct (is_leap y); lia.
Qed.

(** The months of a year follow each other. *)
Lemma days_before_month_lt (y m m' : Z) :
  1 <= m <= 12 -> 1 <= m' <= 12 -> m < m' ->
  days_before_month y m + days_in_month y m <= days_before_month y m'.
Proof.
  intros Hm Hm' Hlt.
  month_cases m; month_cases m'; try lia;
    unfold days_before_month, days_in_month; simpl; destruct (is_leap y); lia.
Qed.

Lemma days_before_year_le (y y' : Z) :
  y <= y' -> days_before_year y <= days_before_year y'.
Proof.
  intros Hle. replace y' with (y + Z.of_nat (Z.to_nat (y' - y))) by lia.
  induction (Z.to_nat (y' - y)) as [|n IH]; [now rewrite Z.add_0_r|].
  replace (y + Z.of_nat (S n)) with (y + Z.of_nat n + 1) by lia.
  rewrite days_before_year_succ, days_in_year.
  destruct (is_leap (y + Z.of_nat n)); lia.
Qed.

(** An earlier year ends before a later one begins. *)
Lemma toordinal_year_lt (a b : datetime) :
  in_calendar a -> in_calendar b -> year a < year b ->
  toordinal (to_date a) < toordinal (to_date b).
Proof.
  intros (Hma & Hda & _) (Hmb & Hdb & _) Hlt. unfold toordinal, to_date.
  pose proof (days_before_year_le (year a + 1) (year b) ltac:(lia)) as Hyears.
  rewrite days_before_year_succ in Hyears.
  pose proof (days_before_month_nonneg (year b) (month b) Hmb).
  assert (days_before_month (year a) (month a) + days_in_month (year a) (month a)
          <= days_before_month (year a) 13).
  { clear - Hma. set (y := year a). set (m := month a) in *. clearbody y m.
    month_cases m; unfold days_before_month, days_in_month; simpl;
      destruct (is_leap y); lia. }
  lia.
Qed.

(** The order of datetimes is the order of the instants they denote. *)
Lemma lex_lt_total_microseconds (a b : datetime) :
  in_calendar a -> in_calendar b ->
  lex_compare (fields a) (fields b) = Lt ->
  total_microseconds a < total_microseconds b.
Proof.
  intros Ha Hb. pose proof (toordinal_year_lt a b Ha Hb) as Hyears.
  destruct Ha as (Hma & Hda & Hha & Hmia & Hsa & Husa).
  destruct Hb as (Hmb & Hdb & Hhb & Hmib & Hsb & Husb).
  unfold fields. cbn [lex_compare]. unfold total_microseconds.
  destruct (Z.compare_spec (year a) (year b)) as [Hy|Hy|Hy];
    [|intros _; specialize (Hyears Hy); lia|discriminate].
  clear Hyears. unfold toordinal, to_date. rewrite Hy in *.
  destruct (Z.compare_spec (month a) (month b)) as [Hm|Hm|Hm]; [| |discriminate].
  2: { intros _.
       pose proof (days_before_month_lt (year b) (month a) (month b) Hma Hmb Hm).
       lia. }
  rewrite Hm in *.
  destruct (Z.compare_spec (day a) (day b)) as [Hd|Hd|Hd];
    [|intros _; lia|discriminate].
  destruct (Z.compare_spec (hour a) (hour b)) as [Hh|Hh|Hh];
    [|intros _; lia|discriminate].
  destruct (Z.compare_spec (minute a) (minute b)) as [Hmi|Hmi|Hmi];
    [|intros _; lia|discriminate].
  destruct (Z.compare_spec (second a) (second b)) as [Hs|Hs|Hs];
    [|intros _; lia|discriminate].
  destruct (Z.compare_spec (microsecond a) (microsecond b)) as [Hus|Hus|Hus];
    [discriminate|intros _; lia|discriminate].
Qed.

Lemma lex_eq_fields (a b : datetime) :
  lex_compare (fields a) (fields b) = Eq -> a = b.
Proof.
  destruct a, b. unfold fields. cbn [lex_compare year month day hour minute
                                      second microsecond].
  repeat match goal with
         | |- context [?x ?= ?y] =>
             destruct (Z.compare_spec x y); try discriminate; subst
         end.
  reflexivity.
Qed.

Lemma leb_total_microseconds (a b : datetime) :
  in_calendar a -> in_calendar b ->
  leb a b = true <-> total_microseconds a <= total_microseconds b.
Proof.
  intros Ha Hb. unfold leb.
  pose proof (lex_lt_total_microseconds a b Ha Hb) as Hlt.
  pose proof (lex_lt_total_microseconds b a Hb Ha) as Hgt.
  rewrite (lex_compare_antisym (fields a) (fields b)) in Hgt.
  pose proof (lex_eq_fields a b) as Heq.
  destruct (lex_compare (fields a) (fields b)); simpl in *.
  - rewrite (Heq eq_refl). split; [lia|reflexivity].
  - specialize (Hlt eq_refl). split; [lia|reflexivity].
  - specialize (Hgt eq_refl). split; [discriminate|lia].
Qed.

(** The day after is one day later. *)
Lemma total_microseconds_next_day (dt : datetime) :
  in_calendar dt ->
  total_microseconds (next_day dt) = total_microseconds dt + 86400000000.
Proof.
  intros (Hm & Hd & _). unfold total_microseconds, toordinal, to_date, next_day.
  destruct (Z.ltb_spec (day dt) (days_in_month (year dt) (month dt))) as [Hlt|Hge];
    [simpl; lia|].
  assert (Hday : day dt = days_in_month (year dt) (month dt)) by lia.
  destruct (Z.ltb_spec (month dt) 12) as [Hlt|Hdec]; simpl.
  - rewrite days_before_month_succ by lia. lia.
  - assert (H12 : month dt = 12) by lia. rewrite H12 in *.
    rewrite days_before_year_succ.
    pose proof (days_before_month_succ (year dt) 12 ltac:(lia)) as Hyear.
    change (12 + 1) with 13 in Hyear.
    change (days_before_month (year dt + 1) 1) with 0. lia.
Qed.

Lemma next_day_in_calendar (dt : datetime) :
  in_calendar dt -> in_calendar (next_day dt).
Proof.
  intros (Hm & Hd & Htime). unfold in_calendar, next_day.
  destruct (Z.ltb_spec (day dt) (days_in_month (year dt) (month dt)));
    [simpl; repeat split; try apply Htime; lia|].
  destruct (Z.ltb_spec (month dt) 12); simpl.
  - pose proof (days_in_month_bounds (year dt) (month dt + 1)).
    repeat split; try apply Htime; lia.
  - pose proof (days_in_month_bounds (year dt + 1) 1).
    repeat split; try apply Htime; lia.
Qed.

Lemma iter_next_day_in_calendar (dt : datetime) (n : nat) :
  in_calendar dt -> in_calendar (Nat.iter n next_day dt).
Proof.
  intros Hdt. induction n as [|n IH]; [exact Hdt|].
  rewrite Nat.iter_succ. now apply next_day_in_calendar.
Qed.

Lemma total_microseconds_iter_next_day (dt : datetime) (n : nat) :
  in_calendar dt ->
  total_microseconds (Nat.iter n next_day dt) =
  total_microseconds dt + Z.of_nat n * 86400000000.
Proof.
  intros Hdt. induction n as [|n IH].
  - change (Nat.iter 0 next_day dt) with dt. lia.
  - rewrite Nat.iter_succ, total_microseconds_next_day, IH
      by now apply iter_next_day_in_calendar.
    lia.
Qed.

(** ** Elapsed days and occurrences *)

Section Occurrences.
Context {A : Type} `{Amount A}.
Implicit Types (l : Ledger A) (flow : Flow A).

Lemma sub_days_nonneg (t0 asOf : datetime) :
  in_calendar t0 -> in_calendar asOf -> leb t0 asOf = true ->
  0 <= sub_days asOf t0.
Proof.
  intros H0 Has Hle. apply leb_total_microseconds in Hle; [|assumption..].
  unfold sub_days. apply Z.div_pos; lia.
Qed.

Lemma sub_days_iter_next_day (t0 : datetime) (n : nat) :
  in_calendar t0 -> sub_days (Nat.iter n next_day t0) t0 = Z.of_nat n.
Proof.
  intros H0. unfold sub_days. rewrite total_microseconds_iter_next_day by assumption.
  replace (total_microseconds t0 + Z.of_nat n * 86400000000 - total_microseconds t0)
    with (Z.of_nat n * 86400000000) by lia.
  apply Z.div_mul. lia.
Qed.

Lemma leb_iter_next_day (t0 : datetime) (n : nat) :
  in_calendar t0 -> leb t0 (Nat.iter n next_day t0) = true.
Proof.
  intros H0. apply leb_total_microseconds;
    [assumption | now apply iter_next_day_in_calendar |].
  rewrite total_microseconds_iter_next_day by assumption. lia.
Qed.

(** X6: the guard [time_executed <= timestamp] of [get_future_balance]
    makes the elapsed days non-negative: for a projected flow that
    recurs every [P > 0] days, the number of occurrences counted is the
    [k >= 0] with [k * P <= elapsed < (k + 1) * P], so such a flow is
    never counted a negative number of times. *)
Theorem occurrences_nonneg flow (asOf : datetime) (balance : A) :
  in_calendar (time_executed flow) -> in_calendar asOf ->
  leb (time_executed flow) asOf = true -> recurrent flow > 0 ->
  exists k,
    0 <= k /\
    k * recurrent flow <= sub_days asOf (time_executed flow)
      < (k + 1) * recurrent flow /\
    future_step asOf balance flow = amt_add balance (amt_scale (size flow) k).
Proof.
  intros H0 Has Hle Hrec.
  pose proof (sub_days_nonneg _ _ H0 Has Hle) as Hdays.
  exists (sub_days asOf (time_executed flow) / recurrent flow).
  split; [apply Z.div_pos; lia|]. split.
  - pose proof (Z.div_mod (sub_days asOf (time_executed flow)) (recurrent flow)
                  ltac:(lia)) as Hdm.
    pose proof (Z.mod_pos_bound (sub_days asOf (time_executed flow))
                  (recurrent flow) ltac:(lia)). nia.
  - apply future_step_recurring; [assumption|lia].
Qed.

(** X7: adding [k] periods to the time of a recurring projected flow
    and asking for the projected balance then counts the flow exactly
    [k] times: for [asOf = time_executed + timedelta(days=k*P)] the
    guard holds and the flow adds [size * k]. *)
Theorem occurrences_after_whole_periods flow (k : Z) (asOf : datetime)
    (balance : A) :
  in_calendar (time_executed flow) -> recurrent flow > 0 -> 0 <= k ->
  add_timedelta (time_executed flow) (k * recurrent flow) = Ok asOf ->
  leb (time_executed flow) asOf = true /\
  sub_days asOf (time_executed flow) = k * recurrent flow /\
  future_step asOf balance flow = amt_add balance (amt_scale (size flow) k).
Proof.
  intros H0 Hrec Hk Hadd. unfold add_timedelta in Hadd.
  destruct (Z.abs (k * recurrent flow) <=? 999999999); [|discriminate].
  replace (0 <=? k * recurrent flow) with true in Hadd
    by (symmetry; apply Z.leb_le; nia).
  rewrite add_days_unfold in Hadd. revert Hadd.
  pose proof (leb_iter_next_day (time_executed flow)
                (Z.to_nat (k * recurrent flow)) H0) as Hle.
  pose proof (sub_days_iter_next_day (time_executed flow)
                (Z.to_nat (k * recurrent flow)) H0) as Hdays.
  revert Hle Hdays.
  generalize (Nat.iter (Z.to_nat (k * recurrent flow)) next_day (time_executed flow)).
  intros r Hle Hdays Hadd. unfold check_range in Hadd.
  destruct ((MINYEAR <=? year r) && (year r <=? MAXYEAR)); [|discriminate].
  inversion Hadd; subst r.
  rewrite Z2Nat.id in Hdays by nia.
  split; [exact Hle|]. split; [exact Hdays|].
  rewrite future_step_recurring by (assumption || lia).
  rewrite Hdays, Z.div_mul by lia. reflexivity.
Qed.

(** X8: a negative [recurrent] is taken as a period too, and floor
    division by it is negative: once a whole day has elapsed, such a
    flow is counted a negative number of times. *)
Theorem negative_period_counts_backwards flow (asOf : datetime) (balance : A) :
  leb (time_executed flow) asOf = true -> recurrent flow < 0 ->
  0 < sub_days asOf (time_executed flow) ->
  exists k,
    k < 0 /\
    future_step asOf balance flow = amt_add balance (amt_scale (size flow) k).
Proof.
  intros Hle Hrec Hdays.
  exists (sub_days asOf (time_executed flow) / recurrent flow). split.
  - pose proof (Z.div_mod (sub_days asOf (time_executed flow)) (recurrent flow)
                  ltac:(lia)) as Hdm.
    pose proof (Z.mod_neg_bound (sub_days asOf (time_executed flow))
                  (recurrent flow) ltac:(lia)). nia.
  - apply future_step_recurring; [assumption|lia].
Qed.

End Occurrences.

(** ** Flows pending today *)

Lemma next_day_time (dt : datetime) :
  hour (next_day dt) = hour dt /\ minute (next_day dt) = minute dt /\
  second (next_day dt) = second dt /\ microsecond (next_day dt) = microsecond dt.
Proof.
  unfold next_day.
  destruct (day dt <? days_in_month (year dt) (month dt));
    [|destruct (month dt <? 12)]; simpl; auto.
Qed.

Lemma iter_next_day_time (dt : datetime) (n : nat) :
  hour (Nat.iter n next_day dt) = hour dt /\
  minute (Nat.iter n next_day dt) = minute dt /\
  second (Nat.iter n next_day dt) = second dt /\
  microsecond (Nat.iter n next_day dt) = microsecond dt.
Proof.
  induction n as [|n IH]; [auto|]. rewrite Nat.iter_succ.
  destruct (next_day_time (Nat.iter n next_day dt)) as (-> & -> & -> & ->).
  exact IH.
Qed.

(** A later day is another date. *)
Lemma iter_next_day_date (dt : datetime) (n : nat) :
  in_calendar dt -> to_date (Nat.iter n next_day dt) = to_date dt -> n = 0%nat.
Proof.
  intros Hdt Hdate.
  pose proof (total_microseconds_iter_next_day dt n Hdt) as Hus.
  destruct (iter_next_day_time dt n) as (Hh & Hmi & Hs & Hms).
  revert Hdate Hus Hh Hmi Hs Hms. generalize (Nat.iter n next_day dt).
  intros r Hdate Hus Hh Hmi Hs Hms.
  unfold total_microseconds in Hus. rewrite Hdate, Hh, Hmi, Hs, Hms in Hus. lia.
Qed.

(** The date [n] days later is [n] further in the count of days. *)
Lemma toordinal_iter_next_day (dt : datetime) (n : nat) :
  in_calendar dt ->
  toordinal (to_date (Nat.iter n next_day dt)) = toordinal (to_date dt) + Z.of_nat n.
Proof.
  intros Hdt.
  pose proof (total_microseconds_iter_next_day dt n Hdt) as Hus.
  destruct (iter_next_day_time dt n) as (Hh & Hmi & Hs & Hms).
  revert Hus Hh Hmi Hs Hms. generalize (Nat.iter n next_day dt).
  intros r Hus Hh Hmi Hs Hms.
  unfold total_microseconds in Hus. rewrite Hh, Hmi, Hs, Hms in Hus. lia.
Qed.

(** Two dates of the calendar with the same count are the same date. *)
Lemma toordinal_inj (a b : datetime) :
  in_calendar a -> in_calendar b ->
  toordinal (to_date a) = toordinal (to_date b) -> to_date a = to_date b.
Proof.
  intros (Hma & Hda & _) (Hmb & Hdb & _) Heq.
  pose (a0 := mk_datetime (year a) (month a) (day a) 0 0 0 0).
  pose (b0 := mk_datetime (year b) (month b) (day b) 0 0 0 0).
  assert (Ha0 : in_calendar a0) by (unfold in_calendar; simpl; repeat split; lia).
  assert (Hb0 : in_calendar b0) by (unfold in_calendar; simpl; repeat split; lia).
  assert (Hus : total_microseconds a0 = total_microseconds b0).
  { unfold total_microseconds.
    change (to_date a0) with (to_date a). change (to_date b0) with (to_date b).
    rewrite Heq. reflexivity. }
  assert (H1 : leb a0 b0 = true) by (apply leb_total_microseconds; [assumption..|lia]).
  assert (H2 : leb b0 a0 = true) by (apply leb_total_microseconds; [assumption..|lia]).
  unfold leb in H1, H2. rewrite (lex_compare_antisym (fields a0) (fields b0)) in H2.
  destruct (lex_compare (fields a0) (fields b0)) eqn:Hc;
    simpl in H1, H2; try discriminate.
  apply lex_eq_fields in Hc. unfold a0, b0 in Hc. unfold to_date. congruence.
Qed.

(** [dt + timedelta(P)] for [P >= 0], when it does not overflow, is the
    date [P] further in the count of days. *)
Lemma add_timedelta_forward (dt next : datetime) (P : Z) :
  in_calendar dt -> 0 <= P -> add_timedelta dt P = Ok next ->
  in_calendar next /\ toordinal (to_date next) = toordinal (to_date dt) + P.
Proof.
  intros Hdt HP Hadd. unfold add_timedelta in Hadd.
  destruct (Z.abs P <=? 999999999); [|discriminate].
  replace (0 <=? P) with true in Hadd by (symmetry; apply Z.leb_le; lia).
  rewrite add_days_unfold in Hadd.
  pose proof (iter_next_day_in_calendar dt (Z.to_nat P) Hdt) as Hcal.
  pose proof (toordinal_iter_next_day dt (Z.to_nat P) Hdt) as Hord.
  revert Hadd Hcal Hord. generalize (Nat.iter (Z.to_nat P) next_day dt).
  intros r Hadd Hcal Hord. unfold check_range in Hadd.
  destruct ((MINYEAR <=? year r) && (year r <=? MAXYEAR)); [|discriminate].
  inversion Hadd; subst r. split; [exact Hcal|]. rewrite Hord. lia.
Qed.

Section Pending.
Context {A : Type} `{Amount A}.
Implicit Types (l : Ledger A) (flow : Flow A) (flows due : list (Flow A)).

(** Every projected flow whose next due date is today is in what
    [flows_to_be_executed] returns. *)
Lemma due_on_listed (today : date) flows due flow :
  due_on today flows = Ok due -> In flow flows ->
  exists next,
    add_timedelta (time_executed flow) (recurrent flow) = Ok next /\
    (to_date next = today -> In flow due).
Proof.
  revert due. induction flows as [|x rest IH]; intros due Hrun Hin; simpl in Hrun;
    [contradiction|].
  destruct (add_timedelta (time_executed x) (recurrent x)) as [next|e] eqn:Hadd;
    [|discriminate]. simpl in Hrun.
  destruct (due_on today rest) as [rest'|e] eqn:Hrest; [|discriminate].
  simpl in Hrun. inversion Hrun; subst due. clear Hrun.
  destruct Hin as [<-|Hin].
  - exists next. split; [exact Hadd|]. intros Hdate.
    rewrite decide_True by assumption. now left.
  - destruct (IH rest' eq_refl Hin) as (next' & Hadd' & Hin').
    exists next'. split; [exact Hadd'|]. intros Hdate.
    destruct (decide (to_date next = today)); [right|]; auto.
Qed.

(** What [flows_to_be_executed] returns is made of projected flows whose
    next due date is today. *)
Lemma due_on_elem (today : date) flows due flow :
  due_on today flows = Ok due -> In flow due ->
  In flow flows /\
  exists next,
    add_timedelta (time_executed flow) (recurrent flow) = Ok next /\
    to_date next = today.
Proof.
  revert due. induction flows as [|x rest IH]; intros due Hrun Hin; simpl in Hrun.
  - inversion Hrun; subst. contradiction.
  - destruct (add_timedelta (time_executed x) (recurrent x)) as [next|e] eqn:Hadd;
      [|discriminate]. simpl in Hrun.
    destruct (due_on today rest) as [rest'|e] eqn:Hrest; [|discriminate].
    simpl in Hrun. inversion Hrun; subst due. clear Hrun.
    destruct (decide (to_date next = today)) as [Hdate|Hdate].
    + destruct Hin as [<-|Hin].
      * split; [now left | eauto].
      * destruct (IH rest' eq_refl Hin) as [Hin' Hnext]. split; [now right | exact Hnext].
    + destruct (IH rest' eq_refl Hin) as [Hin' Hnext]. split; [now right | exact Hnext].
Qed.

(** A flow that recurs every [P >= 1] days and was executed now is not
    due today. *)
Lemma not_due_after_execution flow (now next : datetime) :
  in_calendar now -> 1 <= recurrent flow ->
  add_timedelta (time_executed (set_time_executed flow now)) (recurrent flow)
    = Ok next ->
  to_date next <> to_date now.
Proof.
  intros Hnow Hrec Hadd Hdate. simpl in Hadd. unfold add_timedelta in Hadd.
  destruct (Z.abs (recurrent flow) <=? 999999999); [|discriminate].
  replace (0 <=? recurrent flow) with true in Hadd by (symmetry; apply Z.leb_le; lia).
  rewrite add_days_unfold in Hadd.
  pose proof (iter_next_day_date now (Z.to_nat (recurrent flow)) Hnow) as Hsame.
  revert Hadd Hsame. generalize (Nat.iter (Z.to_nat (recurrent flow)) next_day now).
  intros r Hadd Hsame. unfold check_range in Hadd.
  destruct ((MINYEAR <=? year r) && (year r <=? MAXYEAR)); [|discriminate].
  inversion Hadd; subst r. specialize (Hsame Hdate). lia.
Qed.

(** X9: after [execute_flow(id, real_size, now)] on a projected flow
    that recurs every [P >= 1] days (the projected ids being unique),
    the flow stays projected with [time_executed = now], and
    [flows_to_be_executed] lists a flow with that id on one date only,
    the one [P] days after the date of [now]: asked on the date of
    [now] it no longer lists it, whenever it lists one the date is [P]
    days later, and asked [P] days later it does list the flow. *)
Theorem executed_flow_no_longer_pending (n : Z) l (id : Z) (real_size : A)
    (now later : datetime) l' due :
  in_calendar now ->
  NoDup (map flow_id (projected l)) ->
  (forall flow, In flow (projected l) -> flow_id flow = id -> 1 <= recurrent flow) ->
  execute_flow n l id real_size now = Ok (true, n + 1, l') ->
  flows_to_be_executed later l' = Ok due ->
  exists flow,
    In flow (projected l) /\ flow_id flow = id /\
    In (mk_Flow id (size flow) (category flow) now (recurrent flow) (comments flow))
       (projected l') /\
    (to_date later = to_date now -> has_id id due = false) /\
    (has_id id due = true ->
     toordinal (to_date later) = toordinal (to_date now) + recurrent flow) /\
    (in_calendar later ->
     toordinal (to_date later) = toordinal (to_date now) + recurrent flow ->
     has_id id due = true /\
     In (mk_Flow id (size flow) (category flow) now (recurrent flow) (comments flow))
        due).
Proof.
  intros Hnow Hnd Hrec Hrun Hdue.
  destruct (has_id id (projected l)) eqn:Hhas;
    [|rewrite execute_flow_absent in Hrun by assumption; discriminate].
  destruct (execute_flow_first_match n l id real_size now Hhas)
    as (pre & flow & post & l1 & Hsplit & Hid & Hpre & Hrun1 & _ & _ & _ & _ & Hkeep).
  rewrite Hrun in Hrun1. inversion Hrun1; subst l1. clear Hrun1.
  assert (Hin : In flow (projected l)) by (rewrite Hsplit; apply in_elt).
  assert (Hflow : 1 <= recurrent flow) by (apply Hrec; assumption).
  destruct (Hkeep ltac:(lia)) as [Hproj _].
  assert (Hkept : set_time_executed flow now =
                  mk_Flow id (size flow) (category flow) now (recurrent flow)
                          (comments flow))
    by (unfold set_time_executed; now rewrite Hid).
  rewrite Hkept in Hproj.
  unfold flows_to_be_executed in Hdue. rewrite Hproj in Hdue.
  assert (Honly : has_id id due = true ->
            toordinal (to_date later) = toordinal (to_date now) + recurrent flow).
  { intros Hlisted. apply has_id_true in Hlisted as (x & Hx & Hxid).
    destruct (due_on_elem _ _ _ x Hdue Hx) as (Hxin & next & Hadd & Hdate).
    rewrite Hsplit, map_app in Hnd. simpl in Hnd.
    apply NoDup_app in Hnd as (_ & _ & Hnd). apply NoDup_cons in Hnd as [Hpost _].
    apply in_app_or in Hxin as [Hxin|[Hxin|Hxin]].
    - exfalso. apply has_id_false in Hpre. rewrite Forall_forall in Hpre.
      apply (Hpre x); [now apply list_elem_of_In | exact Hxid].
    - subst x. simpl in Hadd.
      destruct (add_timedelta_forward now next (recurrent flow) Hnow ltac:(lia) Hadd)
        as [_ Hord].
      now rewrite <- Hdate.
    - exfalso. apply Hpost. rewrite list_elem_of_In, in_map_iff.
      exists x. split; [congruence | exact Hxin]. }
  exists flow. split; [exact Hin|]. split; [exact Hid|].
  split; [rewrite Hproj; apply in_elt|].
  split; [|split; [exact Honly|]].
  - intros Hsame. destruct (has_id id due) eqn:Hlisted; [exfalso|reflexivity].
    specialize (Honly eq_refl). rewrite Hsame in Honly. lia.
  - intros Hlater Hord.
    destruct (due_on_listed (to_date later) _ due
                (mk_Flow id (size flow) (category flow) now (recurrent flow)
                         (comments flow)) Hdue (in_elt _ _ _))
      as (next & Hadd & Hlisted).
    simpl in Hadd.
    destruct (add_timedelta_forward now next (recurrent flow) Hnow ltac:(lia) Hadd)
      as [Hnext Hord'].
    assert (Hdate : to_date next = to_date later)
      by (apply toordinal_inj; [assumption..|lia]).
    specialize (Hlisted Hdate). split; [|exact Hlisted].
    apply has_id_true. eexists. split; [exact Hlisted | reflexivity].
Qed.

End Pending.

(** ** The monthly series, entry by entry *)

Lemma next_first_step (c : datetime) :
  1 <= month c <= 12 ->
  replace_day (Nat.iter 4 next_day (replace_day c 28)) 1 = next_first c.
Proof.
  intros Hc. destruct (next_month_step c Hc) as (Hidx & Hm & Hy).
  pose proof (iter_next_day_time (replace_day c 28) 4) as Ht.
  revert Hidx Hm Hy Ht. generalize (Nat.iter 4 next_day (replace_day c 28)).
  intros [ry rm rd rh rmi rs rus]. unfold month_index, replace_day, next_first.
  cbn [year month day hour minute second microsecond].
  intros Hidx Hm Hy (-> & -> & -> & ->).
  destruct (Z.ltb_spec (month c) 12); f_equal; lia.
Qed.

Lemma next_first_index (c : datetime) :
  1 <= month c <= 12 ->
  month_index (next_first c) = month_index c + 1 /\
  1 <= month (next_first c) <= 12 /\ year c <= year (next_first c).
Proof.
  intros Hc. unfold next_first, month_index.
  destruct (Z.ltb_spec (month c) 12); simpl; lia.
Qed.

Lemma prev_last_index (c : datetime) :
  1 <= month c <= 12 ->
  month_index (prev_last c) = month_index c - 1 /\
  1 <= month (prev_last c) <= 12 /\
  year c - 1 <= year (prev_last c) <= year c.
Proof. intros Hc. exact (prev_month_step c Hc). Qed.

(** Writing a new key to a dict puts the entry last. *)
Lemma dict_set_fresh {V : Type} (d : dict V) (k : string) (v : V) :
  (forall kv, In kv d -> fst kv <> k) -> dict_set d k v = d ++ [(k, v)].
Proof.
  induction d as [|[k' v'] d IH]; intros Hfresh; simpl; [reflexivity|].
  rewrite decide_False by (apply (Hfresh (k', v')); now left).
  rewrite IH; [reflexivity|]. intros kv Hin. apply Hfresh. now right.
Qed.

Section SeriesEntries.
Context {A : Type} `{Amount A}.
Implicit Types (l : Ledger A) (M : BalanceModule) (d : dict A).

(** The forward walk from [current_date]: it writes one entry per month,
    in order, after what the dict holds, until the date passes
    [end_timestamp]. *)
Lemma future_loop_walk M l (end_timestamp : datetime) :
  1 <= month end_timestamp <= 12 -> year end_timestamp < MAXYEAR ->
  forall (fuel : nat) (current_date : datetime) d,
    1 <= year current_date -> 1 <= month current_date <= 12 ->
    (forall kv c, In kv d -> 1 <= year c -> 1 <= month c <= 12 ->
                  month_index current_date <= month_index c ->
                  fst kv <> month_key c) ->
    Z.max 0 (month_index end_timestamp - month_index current_date + 1)
      < Z.of_nat fuel ->
    exists k : nat,
      Forall (fun c => leb c end_timestamp = true) (walk next_first k current_date) /\
      leb (Nat.iter k next_first current_date) end_timestamp = false /\
      Z.of_nat k
        <= Z.max 0 (month_index end_timestamp - month_index current_date + 1) /\
      future_loop fuel M l end_timestamp current_date d =
      Some (Ok (d ++ map (future_entry M l end_timestamp)
                         (walk next_first k current_date))).
Proof.
  intros Hmend Hyend.
  induction fuel as [|fuel IH]; intros cur d Hycur Hmcur Hfresh Hfuel; [lia|].
  rewrite future_loop_turn. destruct (leb cur end_timestamp) eqn:Hle.
  - pose proof (leb_month_index _ _ Hmcur Hmend Hle) as Hidx.
    destruct (next_month_step cur Hmcur) as (Hnext & Hmnext & Hynext).
    pose proof (next_first_step cur Hmcur) as Hstep.
    destruct (next_first_index cur Hmcur) as (Hnidx & Hnm & Hny).
    rewrite add_days_unfold.
    revert Hnext Hmnext Hynext Hstep.
    generalize (Nat.iter 4 next_day (replace_day cur 28)).
    intros r Hnext Hmnext Hynext Hstep.
    rewrite check_range_ok by (unfold MINYEAR, MAXYEAR, month_index in *; lia).
    rewrite Hstep.
    rewrite dict_set_fresh
      by (intros kv Hin; apply (Hfresh kv cur Hin); (assumption || lia)).
    change (month_key cur,
            amt_round2
              (get_future_balance M l
                 (if ltb end_timestamp (month_end cur)
                  then end_timestamp else month_end cur)))
      with (future_entry M l end_timestamp cur).
    destruct (IH (next_first cur) (d ++ [future_entry M l end_timestamp cur]))
      as (k & Hall & Hstop & Hk & Hrun); try lia.
    { intros kv c Hin Hyc Hmc Hc. apply in_app_or in Hin as [Hin|[<-|[]]].
      - apply (Hfresh kv c Hin); (assumption || lia).
      - simpl. intros Hkey. apply month_key_inj in Hkey; (assumption || lia). }
    exists (S k). split; [constructor; assumption|].
    split; [now rewrite Nat.iter_succ_r|]. split; [lia|].
    rewrite Hrun, <- app_assoc. reflexivity.
  - exists 0%nat. split; [constructor|]. split; [exact Hle|]. split; [lia|].
    simpl. now rewrite app_nil_r.
Qed.

(** The backward walk, likewise. *)
Lemma past_loop_walk M l (end_timestamp : datetime) :
  1 <= month end_timestamp <= 12 -> MINYEAR < year end_timestamp ->
  forall (fuel : nat) (current_date : datetime) d,
    1 <= year current_date <= MAXYEAR -> 1 <= month current_date <= 12 ->
    (forall kv c, In kv d -> 1 <= year c -> 1 <= month c <= 12 ->
                  month_index c <= month_index current_date ->
                  fst kv <> month_key c) ->
    Z.max 0 (month_index current_date - month_index end_timestamp + 1)
      < Z.of_nat fuel ->
    exists k : nat,
      Forall (fun c => geb c end_timestamp = true) (walk prev_last k current_date) /\
      geb (Nat.iter k prev_last current_date) end_timestamp = false /\
      Z.of_nat k
        <= Z.max 0 (month_index current_date - month_index end_timestamp + 1) /\
      past_loop fuel M l end_timestamp current_date d =
      Some (Ok (d ++ map (past_entry M l) (walk prev_last k current_date))).
Proof.
  intros Hmend Hyend.
  induction fuel as [|fuel IH]; intros cur d Hycur Hmcur Hfresh Hfuel; [lia|].
  rewrite past_loop_turn. destruct (geb cur end_timestamp) eqn:Hge.
  - pose proof Hge as Hle. unfold geb in Hle.
    pose proof (leb_month_index _ _ Hmend Hmcur Hle) as Hidx.
    destruct (prev_last_index cur Hmcur) as (Hpidx & Hpm & Hpy).
    rewrite sub_days_from_unfold.
    change (Nat.iter 1 prev_day (replace_day cur 1)) with (prev_last cur).
    rewrite check_range_ok by (unfold MINYEAR, MAXYEAR, month_index in *; lia).
    rewrite dict_set_fresh
      by (intros kv Hin; apply (Hfresh kv cur Hin); (assumption || lia)).
    change (month_key cur, get_balance M l (Some (month_end cur)))
      with (past_entry M l cur).
    destruct (IH (prev_last cur) (d ++ [past_entry M l cur]))
      as (k & Hall & Hstop & Hk & Hrun);
      try (unfold MINYEAR, MAXYEAR, month_index in *; lia).
    { intros kv c Hin Hyc Hmc Hc. apply in_app_or in Hin as [Hin|[<-|[]]].
      - apply (Hfresh kv c Hin); (assumption || lia).
      - simpl. intros Hkey. apply month_key_inj in Hkey; (assumption || lia). }
    exists (S k). split; [constructor; assumption|].
    split; [now rewrite Nat.iter_succ_r|]. split; [lia|].
    rewrite Hrun, <- app_assoc. reflexivity.
  - exists 0%nat. split; [constructor|]. split; [exact Hge|]. split; [lia|].
    simpl. now rewrite app_nil_r.
Qed.

Lemma walk_index (step : datetime -> datetime) (delta : Z) :
  (forall c, 1 <= month c <= 12 ->
             month_index (step c) = month_index c + delta /\
             1 <= month (step c) <= 12) ->
  forall (k : nat) (c : datetime), 1 <= month c <= 12 ->
    map month_index (walk step k c) =
    map (fun i => month_index c + Z.of_nat i * delta) (seq 0 k).
Proof.
  intros Hstep. induction k as [|k IH]; intros c Hc; [reflexivity|].
  cbn [walk seq map]. f_equal; [lia|].
  destruct (Hstep c Hc) as [Hidx Hm].
  rewrite (IH (step c) Hm), <- seq_shift, map_map.
  apply map_ext. intros i. lia.
Qed.

End SeriesEntries.

(** An earlier month holds earlier datetimes. *)
Lemma month_index_lt_leb (a b : datetime) :
  1 <= month a <= 12 -> 1 <= month b <= 12 ->
  month_index a < month_index b -> leb a b = true.
Proof.
  intros Ha Hb Hlt. unfold leb, fields, month_index in *. cbn [lex_compare].
  destruct (Z.compare_spec (year a) (year b)) as [Hy|Hy|Hy]; [|reflexivity|lia].
  destruct (Z.compare_spec (month a) (month b)) as [Hm|Hm|Hm]; [lia|reflexivity|lia].
Qed.

Lemma iter_index (step : datetime -> datetime) (delta : Z) :
  (forall c, 1 <= month c <= 12 ->
             month_index (step c) = month_index c + delta /\
             1 <= month (step c) <= 12) ->
  forall (k : nat) (c : datetime), 1 <= month c <= 12 ->
    month_index (Nat.iter k step c) = month_index c + Z.of_nat k * delta /\
    1 <= month (Nat.iter k step c) <= 12.
Proof.
  intros Hstep. induction k as [|k IH]; intros c Hc.
  - split; [simpl; lia | exact Hc].
  - rewrite Nat.iter_succ. destruct (IH c Hc) as [Hidx Hm].
    destruct (Hstep _ Hm) as [Hidx' Hm']. split; [lia | exact Hm'].
Qed.

Section SeriesTheorems.
Context {A : Type} `{Amount A}.
Implicit Types (l : Ledger A) (M : BalanceModule).

(** X10: [get_future_monthly_balances], entry by entry.  From [now] the
    walk visits [now] and then the first day of each following month
    at the time of day of [now], as long as the date visited is at most
    [end_timestamp]; the dict returned holds, in that order, one entry
    per date visited: the key of its month and the projected balance at
    the end of that month (its last day, at 23:59:59 and the
    microsecond of [now]), or at [end_timestamp] if that comes first,
    rounded to two decimals.  The months are consecutive, so the keys
    are in chronological order without repetition; the month of
    [end_timestamp] is the last one, and it is left out only when its
    first day at the time of day of [now] is after [end_timestamp].
    When [now] is after [end_timestamp] the dict is empty. *)
Theorem future_series_entries M l (now end_timestamp : datetime) :
  valid now -> valid end_timestamp -> year end_timestamp < MAXYEAR ->
  exists k : nat,
    Forall (fun c => leb c end_timestamp = true) (walk next_first k now) /\
    leb (Nat.iter k next_first now) end_timestamp = false /\
    map month_index (walk next_first k now) =
      map (fun i => month_index now + Z.of_nat i * 1) (seq 0 k) /\
    (leb now end_timestamp = true ->
     month_index end_timestamp - month_index now <= Z.of_nat k
       <= month_index end_timestamp - month_index now + 1) /\
    (leb now end_timestamp = false -> k = 0%nat) /\
    forall fuel : nat,
      Z.max 0 (month_index end_timestamp - month_index now + 1) < Z.of_nat fuel ->
      get_future_monthly_balances fuel M now l end_timestamp =
      Some (Ok (map
        (fun c =>
           let end_of_month :=
             mk_datetime (year c) (month c) (days_in_month (year c) (month c))
                         23 59 59 (microsecond c) in
           (month_key c,
            amt_round2
              (get_future_balance M l
                 (if ltb end_timestamp end_of_month then end_timestamp
                  else end_of_month))))
        (walk next_first k now))).
Proof.
  intros (Hynow & Hmnow & _) (Hyend & Hmend & _) Hmax.
  destruct (future_loop_walk M l end_timestamp Hmend Hmax
              (S (Z.to_nat (Z.max 0 (month_index end_timestamp
                                     - month_index now + 1))))
              now [])
    as (k & Hall & Hstop & Hk & _);
    [unfold MINYEAR in *; lia | exact Hmnow | intros kv c [] | lia |].
  exists k. split; [exact Hall|]. split; [exact Hstop|].
  assert (Hstep : forall c, 1 <= month c <= 12 ->
            month_index (next_first c) = month_index c + 1 /\
            1 <= month (next_first c) <= 12).
  { intros c Hc. destruct (next_first_index c Hc) as (? & ? & ?). auto. }
  split; [now apply (walk_index next_first 1)|].
  split; [|split].
  - intros Hle. pose proof (leb_month_index _ _ Hmnow Hmend Hle) as Hidx.
    split; [|lia].
    destruct (iter_index next_first 1 Hstep k now Hmnow) as [Hik Hmk].
    destruct (Z_lt_le_dec (month_index (Nat.iter k next_first now))
                          (month_index end_timestamp)) as [Hlt|Hge]; [|lia].
    rewrite (month_index_lt_leb _ _ Hmk Hmend Hlt) in Hstop. discriminate.
  - intros Hgt. destruct k as [|k]; [reflexivity|].
    inversion Hall as [|c cs Hle _]; subst. congruence.
  - intros fuel Hfuel.
    destruct (future_loop_walk M l end_timestamp Hmend Hmax fuel now [])
      as (k' & Hall' & Hstop' & _ & Hrun);
      [unfold MINYEAR in *; lia | exact Hmnow | intros kv c [] | exact Hfuel |].
    unfold get_future_monthly_balances. rewrite Hrun. simpl.
    assert (k' = k) as ->; [|reflexivity].
    clear - Hall Hstop Hall' Hstop'. revert k' Hall' Hstop' Hall Hstop.
    generalize now. induction k as [|k IH]; intros c [|k'] Hall' Hstop' Hall Hstop.
    + reflexivity.
    + inversion Hall'; subst. simpl in Hstop. congruence.
    + inversion Hall; subst. simpl in Hstop'. congruence.
    + inversion Hall; inversion Hall'; subst. f_equal.
      rewrite Nat.iter_succ_r in Hstop, Hstop'. eapply IH; eauto.
Qed.

(** X11: [get_past_monthly_balances], entry by entry.  From [now] the
    walk visits [now] and then the last day of each earlier month at
    the time of day of [now], as long as the date visited is at least
    [end_timestamp]; the dict returned holds, in that order, one entry
    per date visited: the key of its month and the realized balance at
    the end of that month, its last day at 23:59:59 and the microsecond
    of [now] (the running balance, not the movement of the month), not
    rounded.  The months are consecutive going back;
    the month of [end_timestamp] is the last one, and it is left out
    only when its last day at the time of day of [now] is before
    [end_timestamp].  When [now] is before [end_timestamp] the dict is
    empty. *)
Theorem past_series_entries M l (now end_timestamp : datetime) :
  valid now -> valid end_timestamp -> MINYEAR < year end_timestamp ->
  exists k : nat,
    Forall (fun c => geb c end_timestamp = true) (walk prev_last k now) /\
    geb (Nat.iter k prev_last now) end_timestamp = false /\
    map month_index (walk prev_last k now) =
      map (fun i => month_index now + Z.of_nat i * -1) (seq 0 k) /\
    (geb now end_timestamp = true ->
     month_index now - month_index end_timestamp <= Z.of_nat k
       <= month_index now - month_index end_timestamp + 1) /\
    (geb now end_timestamp = false -> k = 0%nat) /\
    forall fuel : nat,
      Z.max 0 (month_index now - month_index end_timestamp + 1) < Z.of_nat fuel ->
      get_past_monthly_balances fuel M now l end_timestamp =
      Some (Ok (map
        (fun c =>
           (month_key c,
            get_balance M l
              (Some (mk_datetime (year c) (month c)
                                 (days_in_month (year c) (month c))
                                 23 59 59 (microsecond c)))))
        (walk prev_last k now))).
Proof.
  intros (Hynow & Hmnow & _) (Hyend & Hmend & _) Hmin.
  destruct (past_loop_walk M l end_timestamp Hmend Hmin
              (S (Z.to_nat (Z.max 0 (month_index now
                                     - month_index end_timestamp + 1))))
              now [])
    as (k & Hall & Hstop & Hk & _);
    [unfold MINYEAR in *; lia | exact Hmnow | intros kv c [] | lia |].
  exists k. split; [exact Hall|]. split; [exact Hstop|].
  assert (Hstep : forall c, 1 <= month c <= 12 ->
            month_index (prev_last c) = month_index c + -1 /\
            1 <= month (prev_last c) <= 12).
  { intros c Hc. destruct (prev_last_index c Hc) as (? & ? & ?). split; [lia|auto]. }
  split; [now apply (walk_index prev_last (-1))|].
  split; [|split].
  - intros Hge. pose proof Hge as Hle. unfold geb in Hle.
    pose proof (leb_month_index _ _ Hmend Hmnow Hle) as Hidx.
    split; [|lia].
    destruct (iter_index prev_last (-1) Hstep k now Hmnow) as [Hik Hmk].
    destruct (Z_lt_le_dec (month_index end_timestamp)
                          (month_index (Nat.iter k prev_last now))) as [Hlt|Hge'];
      [|lia].
    unfold geb in Hstop.
    rewrite (month_index_lt_leb _ _ Hmend Hmk Hlt) in Hstop. discriminate.
  - intros Hlt. destruct k as [|k]; [reflexivity|].
    inversion Hall as [|c cs Hge _]; subst. congruence.
  - intros fuel Hfuel.
    destruct (past_loop_walk M l end_timestamp Hmend Hmin fuel now [])
      as (k' & Hall' & Hstop' & _ & Hrun);
      [unfold MINYEAR in *; lia | exact Hmnow | intros kv c [] | exact Hfuel |].
    unfold get_past_monthly_balances. rewrite Hrun. simpl.
    assert (k' = k) as ->; [|reflexivity].
    clear - Hall Hstop Hall' Hstop'. revert k' Hall' Hstop' Hall Hstop.
    generalize now. induction k as [|k IH]; intros c [|k'] Hall' Hstop' Hall Hstop.
    + reflexivity.
    + inversion Hall'; subst. simpl in Hstop. congruence.
    + inversion Hall; subst. simpl in Hstop'. congruence.
    + inversion Hall; inversion Hall'; subst. f_equal.
      rewrite Nat.iter_succ_r in Hstop, Hstop'. eapply IH; eauto.
Qed.

End SeriesTheorems.

(** * The application around the ledger *)

Lemma date_ltb_false (a b : date) :
  date_leb a b = true -> date_ltb b a = false.
Proof.
  unfold date_leb, date_ltb. rewrite (lex_compare_antisym (date_fields a)).
  destruct (lex_compare (date_fields a) (date_fields b)); simpl; congruence.
Qed.

Lemma date_leb_false_ltb (a b : date) :
  date_leb a b = false -> date_ltb b a = true.
Proof.
  unfold date_leb, date_ltb. rewrite (lex_compare_antisym (date_fields a)).
  destruct (lex_compare (date_fields a) (date_fields b)); simpl; congruence.
Qed.

Lemma ids_ok_mono (n n' : Z) (xs : list Z) :
  n <= n' -> ids_ok n xs -> ids_ok n' xs.
Proof.
  intros Hle [Hnd Hall]. split; [exact Hnd|].
  eapply Forall_impl; [exact Hall|]. simpl; intros; lia.
Qed.

Section Application.
Context {A : Type} `{Amount A}.
Implicit Types (l : Ledger A) (flow : Flow A) (m : AppManager A).

(** What [add_flow] does with a new id. *)
Lemma add_flow_fresh l flow (is_proj : bool) :
  has_id (flow_id flow) (projected l) = false ->
  has_id (flow_id flow) (executed l) = false ->
  fst (add_flow l flow is_proj) =
  if is_proj
  then mk_Ledger (account_name l) (executed l) (projected l ++ [flow]) (flow_id flow)
  else mk_Ledger (account_name l) (executed l ++ [flow]) (projected l) (flow_id flow).
Proof.
  intros Hp He. unfold add_flow. rewrite Hp, He. now destruct is_proj.
Qed.

(** An id above the counter is in no partition. *)
Lemma ids_ok_fresh (n i : Z) l :
  ids_ok n (ids l) -> n < i ->
  has_id i (projected l) = false /\ has_id i (executed l) = false.
Proof.
  intros [_ Hle] Hi. unfold ids in Hle. rewrite map_app in Hle.
  apply Forall_app in Hle as [He Hp].
  split; apply has_id_false, Forall_forall; intros flow Hin Hid;
    [rewrite Forall_forall in Hp; specialize (Hp (flow_id flow))
    |rewrite Forall_forall in He; specialize (He (flow_id flow))];
    (match goal with
     | Hq : _ -> flow_id flow <= n |- _ =>
         assert (flow_id flow <= n)
           by (apply Hq; rewrite list_elem_of_In; apply in_map;
               now apply list_elem_of_In);
         lia
     end).
Qed.

(** X12: starting the application.  When the ledger file exists and
    cannot be unpickled, [AppManager(...)] raises [TypeError].  When
    there is no file, it owns a new empty ledger whether [save_ledger]
    wrote it or refused ([True] or [False]), and [Flow._id_counter] is
    set to 0 whatever it was.  In every case that returns, the counter
    is the [last_id] of the ledger and the temporary flow has the id
    after the old counter. *)
Theorem app_manager_start (n : Z) (unpickle : string -> result (Ledger A))
    (path account_name : string) :
  (forall e mkdir save,
      unpickle path = Raise e ->
      AppManager_new n (ledger_from_path true mkdir save unpickle path account_name)
      = Raise TypeError)
  /\ (forall saved : bool,
        AppManager_new n
          (ledger_from_path false (Ok tt) (Ok saved) unpickle path account_name)
        = Ok (mk_AppManager (mk_Ledger account_name [] [] 0)
                (mk_Flow (n + 1) amt_zero "" (mk_datetime 2024 1 9 0 0 0 0) 0 ""),
              0))
  /\ (forall from_path m n',
        AppManager_new n from_path = Ok (m, n') ->
        n' = last_id (manager_ledger m) /\ flow_id (manager_flow m) = n + 1).
Proof.
  split; [|split].
  - intros e mkdir save Hfail. unfold ledger_from_path, load_ledger. simpl.
    now rewrite Hfail.
  - intros saved. reflexivity.
  - intros from_path m n' Hnew. unfold AppManager_new in Hnew.
    destruct from_path as [ledger|e]; [|discriminate]. simpl in Hnew.
    inversion Hnew; subst. auto.
Qed.

(** X13: [execute_flow] does not advance [last_id], and starting the
    application sets the counter back to [last_id].  So when a
    recurring projected flow is executed once in each of two sessions
    on the same ledger, both executed flows get the id [last_id + 1]:
    the executed ids are no longer unique. *)
Theorem execute_in_two_sessions (n n' : Z) l (id : Z) (s1 s2 : A)
    (t1 t2 : datetime) :
  has_id id (projected l) = true ->
  (forall flow, In flow (projected l) -> flow_id flow = id -> recurrent flow <> 0) ->
  exists m1 l1 m2 l2 flow,
    AppManager_new n (Ok l) = Ok (m1, last_id l) /\
    execute_flow (last_id l) l id s1 t1 = Ok (true, last_id l + 1, l1) /\
    AppManager_new n' (Ok l1) = Ok (m2, last_id l) /\
    execute_flow (last_id l) l1 id s2 t2 = Ok (true, last_id l + 1, l2) /\
    executed l2 =
      executed l ++
      [mk_Flow (last_id l + 1) s1 (category flow) t1 (recurrent flow) (comments flow);
       mk_Flow (last_id l + 1) s2 (category flow) t2 (recurrent flow) (comments flow)] /\
    ~ NoDup (map flow_id (executed l2)).
Proof.
  intros Hhas Hrec.
  destruct (execute_flow_first_match (last_id l) l id s1 t1 Hhas)
    as (pre & flow & post & l1 & Hsplit & Hid & Hpre & Hrun1 & Hex1 & _ & Hlast1 &
        _ & Hkeep1).
  assert (Hflow : recurrent flow <> 0).
  { apply Hrec; [rewrite Hsplit; apply in_elt | exact Hid]. }
  destruct (Hkeep1 Hflow) as [Hproj1 _].
  assert (Hhas1 : has_id id (projected l1) = true).
  { rewrite Hproj1, has_id_app. simpl. rewrite Hid, Z.eqb_refl.
    now rewrite orb_true_r. }
  destruct (execute_flow_first_match (last_id l) l1 id s2 t2 Hhas1)
    as (pre' & flow' & post' & l2 & Hsplit' & Hid' & Hpre' & Hrun2 & Hex2 & _).
  assert (Hsame : pre' = pre /\ flow' = set_time_executed flow t1).
  { rewrite Hproj1 in Hsplit'. clear - Hsplit' Hpre Hpre' Hid Hid'.
    revert pre' Hsplit' Hpre'.
    induction pre as [|x pre IH]; intros [|y pre'] Hs Hp'; simpl in *.
    - inversion Hs. auto.
    - inversion Hs as [[Hy Hrest]]. apply orb_false_iff in Hp' as [Hp' _].
      apply Z.eqb_neq in Hp'. subst y. simpl in Hp'. congruence.
    - inversion Hs as [[Hx Hrest]]. apply orb_false_iff in Hpre as [Hpre _].
      apply Z.eqb_neq in Hpre. congruence.
    - inversion Hs as [[Hx Hrest]]. apply orb_false_iff in Hpre as [_ Hpre].
      apply orb_false_iff in Hp' as [_ Hp'].
      destruct (IH Hpre pre' Hrest Hp') as [-> ->]. auto. }
  destruct Hsame as [-> ->].
  exists (mk_AppManager l (mk_Flow (n + 1) amt_zero "" (mk_datetime 2024 1 9 0 0 0 0) 0 "")),
    l1,
    (mk_AppManager l1 (mk_Flow (n' + 1) amt_zero "" (mk_datetime 2024 1 9 0 0 0 0) 0 "")),
    l2, flow.
  split; [reflexivity|]. split; [exact Hrun1|].
  split; [unfold AppManager_new; simpl; now rewrite Hlast1|].
  split; [exact Hrun2|].
  assert (Hex : executed l2 =
    executed l ++
    [mk_Flow (last_id l + 1) s1 (category flow) t1 (recurrent flow) (comments flow);
     mk_Flow (last_id l + 1) s2 (category flow) t2 (recurrent flow) (comments flow)]).
  { rewrite Hex2, Hex1, <- app_assoc. reflexivity. }
  split; [exact Hex|].
  rewrite Hex, map_app. simpl. intros Hnd.
  apply NoDup_app in Hnd as (_ & _ & Hnd).
  apply NoDup_cons in Hnd as [Hnot _]. apply Hnot. now left.
Qed.

(** X14: submitting the add-flow form when both readings of the clock
    fall on the same day and every id of the ledger is at most the
    counter.  A flow dated today or earlier is appended to the executed
    flows with the next id; if it recurs, a copy with the id after that
    is appended to the projected flows as well.  A flow dated after
    today is only appended, as the copy, to the projected flows.
    Afterwards the ids are still unique, [last_id] is the counter, and
    the temporary flow is cleared. *)
Theorem submit_button_pressed_adds (n : Z) m (text : string)
    (now1 now2 : datetime) :
  ids_ok n (ids (manager_ledger m)) ->
  to_date now1 = to_date now2 ->
  let tmp := manager_flow m in
  let l := manager_ledger m in
  let flow_with (id : Z) :=
    mk_Flow id (size tmp) (category tmp) (time_executed tmp) (recurrent tmp)
            text in
  let today_or_earlier :=
    date_leb (to_date (time_executed tmp)) (to_date now1) in
  exists n' l',
    submit_button_pressed n m text now1 now2 =
      (n', mk_AppManager l' (Flow_clear tmp)) /\
    ids_ok n' (ids l') /\ last_id l' = n' /\ account_name l' = account_name l /\
    executed l' =
      (if today_or_earlier then executed l ++ [flow_with (n + 1)] else executed l) /\
    projected l' =
      (if today_or_earlier && (recurrent tmp =? 0) then projected l
       else projected l ++ [flow_with (n + 2)]) /\
    n' = (if today_or_earlier && (recurrent tmp =? 0) then n + 1 else n + 2).
Proof.
  intros Hok Hday tmp l flow_with today_or_earlier.
  unfold submit_button_pressed, Flow_copy, Flow_new. cbn [time_executed recurrent].
  fold tmp l. fold (flow_with (n + 1)). rewrite <- Hday. fold today_or_earlier.
  replace (n + 1 + 1) with (n + 2) by lia.
  change (mk_Flow (n + 2) (size (flow_with (n + 1))) (category (flow_with (n + 1)))
            (time_executed tmp) (recurrent tmp) (comments (flow_with (n + 1))))
    with (flow_with (n + 2)).
  destruct (ids_ok_fresh n (n + 1) l Hok ltac:(lia)) as [Hp1 He1].
  destruct (ids_ok_fresh n (n + 2) l Hok ltac:(lia)) as [Hp2 He2].
  pose proof (add_flow_ok (n + 1) l (flow_with (n + 1)) false
                (ids_ok_weaken _ _ Hok) ltac:(simpl; lia)) as Hok1.
  rewrite (add_flow_fresh l (flow_with (n + 1)) false Hp1 He1) in *.
  destruct today_or_earlier eqn:Htoday.
  - (* dated today or earlier *)
    rewrite (date_ltb_false _ _ Htoday). simpl orb.
    destruct (Z.eqb_spec (recurrent tmp) 0) as [Hrec|Hrec]; cbn [negb andb].
    + eexists _, _. split; [reflexivity|]. split; [exact Hok1|].
      simpl. auto 10.
    + destruct (ids_ok_fresh (n + 1) (n + 2) _ Hok1 ltac:(lia)) as [Hp He].
      pose proof (add_flow_ok (n + 2) _ (flow_with (n + 2)) true
                    (ids_ok_mono (n + 1) (n + 2) _ ltac:(lia) Hok1)
                    ltac:(simpl; lia)) as Hok2.
      rewrite (add_flow_fresh _ (flow_with (n + 2)) true Hp He) in *.
      eexists _, _. split; [reflexivity|]. split; [exact Hok2|].
      simpl. auto 10.
  - (* dated after today *)
    rewrite (date_leb_false_ltb _ _ Htoday). cbn [orb andb].
    pose proof (add_flow_ok (n + 2) l (flow_with (n + 2)) true) as Hok2.
    rewrite (add_flow_fresh l (flow_with (n + 2)) true Hp2 He2) in *.
    eexists _, _. split; [reflexivity|]. split.
    { apply Hok2; [|simpl; lia]. apply (ids_ok_mono n); [lia | exact Hok]. }
    simpl. auto 10.
Qed.

(** X15: a flow entered right after a restart that follows an
    [execute_flow] is lost.  The counter restarts at [last_id], which
    [execute_flow] left behind, so the submitted flow gets the id of
    the flow [execute_flow] made; [add_flow] rejects it and the ledger
    stays as it was, while the form is cleared as after a success. *)
Theorem submit_after_restart_is_dropped (n' : Z) l (id : Z) (real_size : A)
    (t : datetime) (tmp : Flow A) (text : string) (now1 now2 : datetime) :
  has_id id (projected l) = true ->
  date_leb (to_date (time_executed tmp)) (to_date now1) = true ->
  date_ltb (to_date now2) (to_date (time_executed tmp)) = false ->
  recurrent tmp = 0 ->
  exists l1 m,
    execute_flow (last_id l) l id real_size t = Ok (true, last_id l + 1, l1) /\
    AppManager_new n' (Ok l1) = Ok (m, last_id l) /\
    manager_ledger m = l1 /\
    submit_button_pressed (last_id l) (mk_AppManager l1 tmp) text now1 now2 =
      (last_id l + 1, mk_AppManager l1 (Flow_clear tmp)).
Proof.
  intros Hhas Htoday Hlater Hrec.
  destruct (execute_flow_first_match (last_id l) l id real_size t Hhas)
    as (pre & flow & post & l1 & _ & _ & _ & Hrun & Hex & _ & Hlast & _).
  exists l1, (mk_AppManager l1
                (mk_Flow (n' + 1) amt_zero "" (mk_datetime 2024 1 9 0 0 0 0) 0 "")).
  split; [exact Hrun|].
  split; [unfold AppManager_new; simpl; now rewrite Hlast|].
  split; [reflexivity|].
  unfold submit_button_pressed, Flow_new.
  cbn [manager_flow manager_ledger time_executed recurrent].
  rewrite Htoday, Hlater, Hrec. cbn [Z.eqb negb orb].
  destruct (add_flow_rejects l1
              (mk_Flow (last_id l + 1) (size tmp) (category tmp) (time_executed tmp)
                       0 text) false) as [msg Hmsg].
  { cbn [flow_id]. rewrite Hex, has_id_app. simpl. rewrite Z.eqb_refl.
    now rewrite !orb_true_r. }
  now rewrite Hmsg.
Qed.

End Application.

(** ** The further properties on concrete inputs *)

Lemma now_in_calendar : in_calendar now.
Proof. unfold in_calendar. repeat split; vm_compute; congruence. Defined.

Lemma march_ids_ok : ids_ok 4 (ids march_ledger).
Proof.
  change (ids march_ledger) with [1; 2; 3; 4]. split.
  - apply (bool_decide_unpack _). vm_compute. exact I.
  - repeat (constructor; [lia|]). constructor.
Defined.

(** X1 on [Session.three_pending]: removing the rent, the second of
    the three projected flows, leaves the gift and the books, in that
    order. *)
Lemma remove_projected_flow_found_witness :
  has_id 4 (projected Session.three_pending) = true
  /\ remove_projected_flow Session.three_pending 4 =
     (true, mk_Ledger "account" [salary] [gift; Session.books] 5).
Proof.
  split; [reflexivity|].
  destruct (remove_projected_flow_found Session.three_pending 4 eq_refl)
    as (l' & Hrun & _ & _ & _ & Hkeep & Hex & Hname & Hlast & _).
  rewrite Hrun. f_equal.
  specialize (Hkeep [gift] rent [Session.books] eq_refl eq_refl eq_refl eq_refl).
  destruct l' as [name' ex' proj' last']. simpl in *. now subst.
Defined.

(** X2 on [Sample]: a new projected flow 9, added and removed. *)
Lemma add_then_remove_projected_witness :
  has_id 9 (projected march_ledger) = false
  /\ has_id 9 (executed march_ledger) = false
  /\ remove_projected_flow
       (fst (add_flow march_ledger (mk_Flow 9 5 "loan" now 0 "") true)) 9
     = (true, mk_Ledger "account" [salary; refund] [gift; rent] 9).
Proof.
  split; [reflexivity|]. split; [reflexivity|].
  apply (add_then_remove_projected march_ledger (mk_Flow 9 5 "loan" now 0 ""));
    reflexivity.
Defined.

(** X4 on [Sample]: the rent of 10 is executed as -48; the balance of
    100 at March 10th becomes 52. *)
Lemma execute_flow_realized_balance_witness :
  has_id 4 (projected march_ledger) = true
  /\ exists l',
       execute_flow 4 march_ledger 4 (-48) now = Ok (true, 5, l')
       /\ get_balance M l' (Some now) = 52.
Proof.
  split; [reflexivity|].
  destruct (execute_flow_realized_balance M 4 march_ledger 4 (-48) now now eq_refl)
    as (l' & Hrun & Hbal).
  exists l'. split; [exact Hrun|]. rewrite Hbal. reflexivity.
Defined.

(** X6 on [Sample]: the rent from January 1st, seen on March 10th. *)
Lemma occurrences_nonneg_witness :
  in_calendar (time_executed rent) /\ in_calendar now
  /\ leb (time_executed rent) now = true /\ recurrent rent > 0
  /\ exists k, 0 <= k /\ future_step now 0 rent = 0 + 10 * k.
Proof.
  assert (Hrent : in_calendar (time_executed rent))
    by (unfold in_calendar; repeat split; vm_compute; congruence).
  assert (Hrec : recurrent rent > 0) by reflexivity.
  split; [exact Hrent|]. split; [exact now_in_calendar|].
  split; [reflexivity|]. split; [exact Hrec|].
  destruct (occurrences_nonneg rent now 0 Hrent now_in_calendar eq_refl Hrec)
    as (k & Hk & _ & Hstep).
  exists k. split; [exact Hk | exact Hstep].
Defined.

(** X7 on [Sample]: two periods of 30 days after January 1st 2024 is
    March 1st, and the rent is counted twice. *)
Lemma occurrences_after_whole_periods_witness :
  in_calendar (time_executed rent) /\ recurrent rent > 0 /\ 0 <= 2
  /\ add_timedelta (time_executed rent) (2 * recurrent rent) = Ok (at_2024 3 1 0 0)
  /\ future_step (at_2024 3 1 0 0) 0 rent = 0 + 10 * 2.
Proof.
  assert (Hrent : in_calendar (time_executed rent))
    by (unfold in_calendar; repeat split; vm_compute; congruence).
  assert (Hrec : recurrent rent > 0) by reflexivity.
  assert (Hk : 0 <= 2) by lia.
  assert (Hadd : add_timedelta (time_executed rent) (2 * recurrent rent)
                 = Ok (at_2024 3 1 0 0)) by (vm_compute; reflexivity).
  do 4 (split; [assumption|]).
  exact (proj2 (proj2 (occurrences_after_whole_periods rent 2 (at_2024 3 1 0 0) 0
                         Hrent Hrec Hk Hadd))).
Defined.

(** X8 on a flow with [recurrent = -30], four days after its date. *)
Lemma negative_period_counts_backwards_witness :
  leb (at_2024 1 1 0 0) (at_2024 1 5 0 0) = true
  /\ -30 < 0
  /\ 0 < sub_days (at_2024 1 5 0 0) (at_2024 1 1 0 0)
  /\ exists k, k < 0
       /\ future_step (at_2024 1 5 0 0) 0 (mk_Flow 7 10 "rent" (at_2024 1 1 0 0) (-30) "")
          = 0 + 10 * k.
Proof.
  assert (Hneg : -30 < 0) by lia.
  assert (Hdays : 0 < sub_days (at_2024 1 5 0 0) (at_2024 1 1 0 0))
    by (vm_compute; reflexivity).
  split; [reflexivity|]. split; [exact Hneg|]. split; [exact Hdays|].
  exact (negative_period_counts_backwards
           (mk_Flow 7 10 "rent" (at_2024 1 1 0 0) (-30) "") (at_2024 1 5 0 0) 0
           eq_refl Hneg Hdays).
Defined.

(** X9 on [Sample]: the rent, every 30 days from January 1st, is due
    on January 31st.  Once it is executed that day it is no longer
    listed that day, and it is listed again on March 1st, 30 days
    later. *)
Lemma executed_flow_no_longer_pending_witness :
  in_calendar Session.jan_31
  /\ NoDup (map flow_id (projected march_ledger))
  /\ flows_to_be_executed Session.jan_31 march_ledger = Ok [rent]
  /\ execute_flow 4 march_ledger 4 (-48) Session.jan_31
     = Ok (true, 4 + 1, Session.rent_paid_in_january)
  /\ flows_to_be_executed Session.jan_31 Session.rent_paid_in_january = Ok []
  /\ flows_to_be_executed (at_2024 3 1 9 0) Session.rent_paid_in_january
     = Ok [mk_Flow 4 10 "rent" Session.jan_31 30 ""]
  /\ has_id 4 [mk_Flow 4 10 "rent" Session.jan_31 30 ""] = true.
Proof.
  assert (Hnow : in_calendar Session.jan_31)
    by (unfold in_calendar; repeat split; vm_compute; congruence).
  assert (Hlater : in_calendar (at_2024 3 1 9 0))
    by (unfold in_calendar; repeat split; vm_compute; congruence).
  assert (Hnd : NoDup (map flow_id (projected march_ledger)))
    by (apply (bool_decide_unpack _); vm_compute; exact I).
  assert (Hrun : execute_flow 4 march_ledger 4 (-48) Session.jan_31
                 = Ok (true, 4 + 1, Session.rent_paid_in_january))
    by (vm_compute; reflexivity).
  assert (Hdue : flows_to_be_executed (at_2024 3 1 9 0) Session.rent_paid_in_january
                 = Ok [mk_Flow 4 10 "rent" Session.jan_31 30 ""])
    by (vm_compute; reflexivity).
  assert (Hrec : forall flow : Flow Z,
             In flow (projected march_ledger) -> flow_id flow = 4 ->
             1 <= recurrent flow).
  { intros flow [<-|[<-|[]]]; simpl; intros; lia. }
  split; [exact Hnow|]. split; [exact Hnd|]. split; [vm_compute; reflexivity|].
  split; [exact Hrun|]. split; [vm_compute; reflexivity|]. split; [exact Hdue|].
  destruct (executed_flow_no_longer_pending 4 march_ledger 4 (-48) Session.jan_31
              (at_2024 3 1 9 0) Session.rent_paid_in_january _ Hnow Hnd Hrec Hrun Hdue)
    as (flow & [Hgift|[Hrent|[]]] & Hid & _ & _ & _ & Hlisted);
    subst flow; [discriminate Hid|].
  apply Hlisted; [exact Hlater | vm_compute; reflexivity].
Defined.

Lemma sample_dates_valid :
  valid now /\ valid (at_2024 6 15 0 0) /\ valid (at_2024 1 15 0 0).
Proof. unfold valid. repeat split; vm_compute; congruence. Defined.

(** X10 on [Sample]: the forward series from March 10th to June 15th.
    The entry of March is the balance at March 31st (the 100 of March
    5th, the gift of 7 and three rents of 10), not the 120 of March
    10th; June is evaluated at June 15th, before the sixth rent. *)
Lemma future_series_entries_witness :
  valid now /\ valid (at_2024 6 15 0 0) /\ year (at_2024 6 15 0 0) < MAXYEAR
  /\ get_future_monthly_balances 12 M now march_ledger (at_2024 6 15 0 0) =
     Some (Ok [("2024-03"%string, 137); ("2024-04"%string, 147);
               ("2024-05"%string, 157); ("2024-06"%string, 157)]).
Proof.
  destruct sample_dates_valid as (Hnow & Hend & _).
  assert (Hmax : year (at_2024 6 15 0 0) < MAXYEAR) by reflexivity.
  do 3 (split; [assumption|]).
  destruct (future_series_entries M march_ledger now (at_2024 6 15 0 0)
              Hnow Hend Hmax) as (k & _ & Hstop & _ & Hk & _ & Hrun).
  rewrite (Hrun 12%nat) by (vm_compute; reflexivity).
  specialize (Hk eq_refl).
  change (month_index (at_2024 6 15 0 0) - month_index now) with 3 in Hk.
  destruct k as [|[|[|[|[|k]]]]]; try lia.
  - vm_compute in Hstop. discriminate.
  - vm_compute. reflexivity.
Defined.

(** X11 on [Sample]: the backward series from March 10th to January
    15th.  The entry of March is the balance at March 31st, with the
    refund of March 25th, not the 100 of March 10th. *)
Lemma past_series_entries_witness :
  valid now /\ valid (at_2024 1 15 0 0) /\ MINYEAR < year (at_2024 1 15 0 0)
  /\ get_past_monthly_balances 12 M now march_ledger (at_2024 1 15 0 0) =
     Some (Ok [("2024-03"%string, 150); ("2024-02"%string, 0);
               ("2024-01"%string, 0)]).
Proof.
  destruct sample_dates_valid as (Hnow & _ & Hend).
  assert (Hmin : MINYEAR < year (at_2024 1 15 0 0)) by reflexivity.
  do 3 (split; [assumption|]).
  destruct (past_series_entries M march_ledger now (at_2024 1 15 0 0)
              Hnow Hend Hmin) as (k & _ & Hstop & _ & Hk & _ & Hrun).
  rewrite (Hrun 12%nat) by (vm_compute; reflexivity).
  specialize (Hk eq_refl).
  change (month_index now - month_index (at_2024 1 15 0 0)) with 2 in Hk.
  destruct k as [|[|[|[|k]]]]; try lia.
  - vm_compute in Hstop. discriminate.
  - vm_compute. reflexivity.
Defined.

(** X13 on [Sample]: the rent executed in two sessions. *)
Lemma execute_in_two_sessions_witness :
  has_id 4 (projected march_ledger) = true
  /\ (forall flow, In flow (projected march_ledger) -> flow_id flow = 4 ->
                   recurrent flow <> 0)
  /\ exists l1 l2,
       execute_flow 4 march_ledger 4 (-48) now = Ok (true, 5, l1)
       /\ execute_flow 4 l1 4 (-47) (at_2024 4 9 12 0) = Ok (true, 5, l2)
       /\ ~ NoDup (map flow_id (executed l2)).
Proof.
  assert (Hrec : forall flow, In flow (projected march_ledger) -> flow_id flow = 4 ->
                              recurrent flow <> 0).
  { intros flow [<-|[<-|[]]]; simpl; intros; lia. }
  split; [reflexivity|]. split; [exact Hrec|].
  destruct (execute_in_two_sessions (-1) (-1) march_ledger 4 (-48) (-47) now
              (at_2024 4 9 12 0) eq_refl Hrec)
    as (m1 & l1 & m2 & l2 & flow & _ & Hrun1 & _ & Hrun2 & _ & Hdup).
  exists l1, l2. split; [exact Hrun1|]. split; [exact Hrun2 | exact Hdup].
Defined.

(** X14 on [Sample]: the books of March 9th are submitted on March
    10th. *)
Lemma submit_button_pressed_adds_witness :
  ids_ok 4 (ids march_ledger) /\ to_date now = to_date now
  /\ exists n' l',
       submit_button_pressed 4 (mk_AppManager march_ledger Session.draft) "paid"
                             now now
       = (n', mk_AppManager l' (Flow_clear Session.draft))
       /\ last_id l' = n'.
Proof.
  split; [exact march_ids_ok|]. split; [reflexivity|].
  destruct (submit_button_pressed_adds 4 (mk_AppManager march_ledger Session.draft)
              "paid" now now march_ids_ok eq_refl)
    as (n' & l' & Hrun & _ & Hlast & _).
  exists n', l'. split; [exact Hrun | exact Hlast].
Defined.

(** X15 on [Sample]: the rent is executed, the application restarts,
    and the books submitted next are lost. *)
Lemma submit_after_restart_is_dropped_witness :
  has_id 4 (projected march_ledger) = true
  /\ date_leb (to_date (time_executed Session.draft)) (to_date now) = true
  /\ date_ltb (to_date now) (to_date (time_executed Session.draft)) = false
  /\ recurrent Session.draft = 0
  /\ exists l1,
       execute_flow 4 march_ledger 4 (-48) now = Ok (true, 5, l1)
       /\ submit_button_pressed 4 (mk_AppManager l1 Session.draft) "paid" now now
          = (5, mk_AppManager l1 (Flow_clear Session.draft)).
Proof.
  do 4 (split; [reflexivity|]).
  destruct (submit_after_restart_is_dropped (-1) march_ledger 4 (-48) now
              Session.draft "paid" now now eq_refl eq_refl eq_refl eq_refl)
    as (l1 & m & Hrun & _ & _ & Hsubmit).
  exists l1. split; [exact Hrun | exact Hsubmit].
Defined.
